(** * Debris simulation: particle dynamics and population lifecycle

    A shallow embedding of [debris_simulation.py]: the material table, the
    [DebrisParticle] methods ([apply_force], [update_deformation], [update],
    [handle_boundary_collisions]) and the [ExplosionSystem] methods
    ([create_explosion], [update], [is_particle_active]).

    Modelling choices.
    - Python and numpy floats are modelled by exact rationals ([Q]); the
      decimal constants of the source denote the same decimals here.
      Rounding, infinities and NaN are outside the model.  The only
      divisions of the source divide by [mass] (or [mass * 100]), which is
      nonzero whenever [size] is.
    - A numpy array of two floats is a [Vec2]; every array the source
      stores is a fresh copy ([astype], [copy]), so no aliasing arises.
    - [random.uniform(a, b)] is [a + (b - a) * random()], as in CPython,
      and [random()] is a 53-bit integer divided by [2^53]; the generator
      state is threaded explicitly.
    - [pygame.time.get_ticks()] is an input of the functions that read it.
    - [math.sqrt] (behind [numpy.linalg.norm]), [math.cos], [math.sin] and
      [math.pi] have no rational counterpart and are parameters of the
      development. *)

From Stdlib Require Import QArith Qabs ZArith List Lia Lqa Bool.
Import ListNotations.

Local Open Scope Q_scope.

(** ** Comparisons on floats, as booleans *)

Definition Qltb (a b : Q) : bool :=
  match a ?= b with Lt => true | _ => false end.

Definition Qgtb (a b : Q) : bool := Qltb b a.

(** Python's [min(a, b)]: [b] when [b < a], else [a]. *)
Definition py_min (a b : Q) : Q := if Qltb b a then b else a.

(** ** Constants *)

Definition SCREEN_WIDTH : Q := 1200.
Definition SCREEN_HEIGHT : Q := 800.
Definition AIR_RESISTANCE : Q := 0.99.
Definition GROUND_Y : Q := SCREEN_HEIGHT - 50.
Definition RESTITUTION : Q := 0.7.
Definition FRICTION : Q := 0.8.
Definition FPS : Q := 60.

(** ** Two-component arrays *)

Record Vec2 : Type := vec2 { X : Q; Y : Q }.

Definition vadd (a b : Vec2) : Vec2 := vec2 (X a + X b) (Y a + Y b).
Definition vscale (a : Vec2) (k : Q) : Vec2 := vec2 (X a * k) (Y a * k).
Definition vdiv (a : Vec2) (k : Q) : Vec2 := vec2 (X a / k) (Y a / k).
Definition with_X (a : Vec2) (v : Q) : Vec2 := vec2 v (Y a).
Definition with_Y (a : Vec2) (v : Q) : Vec2 := vec2 (X a) v.

Definition GRAVITY : Vec2 := vec2 0 500.

(** ** Materials *)

Inductive MaterialType : Type := RIGID | SEMI_RIGID | SOFT.

Definition MaterialType_eqb (a b : MaterialType) : bool :=
  match a, b with
  | RIGID, RIGID | SEMI_RIGID, SEMI_RIGID | SOFT, SOFT => true
  | _, _ => false
  end.

Record Material : Type := mkMaterial {
  density : Q;
  elasticity : Q;
  damping : Q;
  color : Z * Z * Z;
  deformation_threshold : Q
}.

Definition MATERIALS (t : MaterialType) : Material :=
  match t with
  | RIGID => mkMaterial 2.5 0.2 0.95 (150, 150, 150)%Z 1000
  | SEMI_RIGID => mkMaterial 1.8 0.6 0.85 (200, 150, 100)%Z 300
  | SOFT => mkMaterial 1.0 0.9 0.7 (100, 200, 150)%Z 50
  end.

(** ** The random source *)

Record rng : Type := mkRng { raw : nat -> Z; cursor : nat }.

(** [random.random()]: a multiple of [2^-53] in [[0, 1)]. *)
Definition random (g : rng) : Q * rng :=
  (inject_Z (raw g (cursor g) mod 2 ^ 53) / inject_Z (2 ^ 53),
   mkRng (raw g) (S (cursor g))).

(** [random.uniform(a, b)]. *)
Definition uniform (a b : Q) (g : rng) : Q * rng :=
  let (u, g') := random g in (a + (b - a) * u, g').

(** ** Particles *)

Record DebrisParticle : Type := mkParticle {
  position : Vec2;
  velocity : Vec2;
  size : Q;
  mass : Q;
  material_type : MaterialType;
  material : Material;
  angular_velocity : Q;
  angle : Q;
  forces : Vec2;
  deformation : Q;
  stress : Q;
  original_size : Q;
  trail : list Vec2;
  max_trail_length : nat;
  collision_count : Z;
  last_collision_time : Z
}.

Definition set_position (p : DebrisParticle) (v : Vec2) : DebrisParticle :=
  mkParticle v (velocity p) (size p) (mass p) (material_type p) (material p)
    (angular_velocity p) (angle p) (forces p) (deformation p) (stress p)
    (original_size p) (trail p) (max_trail_length p) (collision_count p)
    (last_collision_time p).

Definition set_velocity (p : DebrisParticle) (v : Vec2) : DebrisParticle :=
  mkParticle (position p) v (size p) (mass p) (material_type p) (material p)
    (angular_velocity p) (angle p) (forces p) (deformation p) (stress p)
    (original_size p) (trail p) (max_trail_length p) (collision_count p)
    (last_collision_time p).

Definition set_size (p : DebrisParticle) (v : Q) : DebrisParticle :=
  mkParticle (position p) (velocity p) v (mass p) (material_type p) (material p)
    (angular_velocity p) (angle p) (forces p) (deformation p) (stress p)
    (original_size p) (trail p) (max_trail_length p) (collision_count p)
    (last_collision_time p).

Definition set_angular_velocity (p : DebrisParticle) (v : Q) : DebrisParticle :=
  mkParticle (position p) (velocity p) (size p) (mass p) (material_type p)
    (material p) v (angle p) (forces p) (deformation p) (stress p)
    (original_size p) (trail p) (max_trail_length p) (collision_count p)
    (last_collision_time p).

Definition set_angle (p : DebrisParticle) (v : Q) : DebrisParticle :=
  mkParticle (position p) (velocity p) (size p) (mass p) (material_type p)
    (material p) (angular_velocity p) v (forces p) (deformation p) (stress p)
    (original_size p) (trail p) (max_trail_length p) (collision_count p)
    (last_collision_time p).

Definition set_forces (p : DebrisParticle) (v : Vec2) : DebrisParticle :=
  mkParticle (position p) (velocity p) (size p) (mass p) (material_type p)
    (material p) (angular_velocity p) (angle p) v (deformation p) (stress p)
    (original_size p) (trail p) (max_trail_length p) (collision_count p)
    (last_collision_time p).

Definition set_deformation (p : DebrisParticle) (v : Q) : DebrisParticle :=
  mkParticle (position p) (velocity p) (size p) (mass p) (material_type p)
    (material p) (angular_velocity p) (angle p) (forces p) v (stress p)
    (original_size p) (trail p) (max_trail_length p) (collision_count p)
    (last_collision_time p).

Definition set_stress (p : DebrisParticle) (v : Q) : DebrisParticle :=
  mkParticle (position p) (velocity p) (size p) (mass p) (material_type p)
    (material p) (angular_velocity p) (angle p) (forces p) (deformation p) v
    (original_size p) (trail p) (max_trail_length p) (collision_count p)
    (last_collision_time p).

Definition set_trail (p : DebrisParticle) (v : list Vec2) : DebrisParticle :=
  mkParticle (position p) (velocity p) (size p) (mass p) (material_type p)
    (material p) (angular_velocity p) (angle p) (forces p) (deformation p)
    (stress p) (original_size p) v (max_trail_length p) (collision_count p)
    (last_collision_time p).

Definition set_collision_count (p : DebrisParticle) (v : Z) : DebrisParticle :=
  mkParticle (position p) (velocity p) (size p) (mass p) (material_type p)
    (material p) (angular_velocity p) (angle p) (forces p) (deformation p)
    (stress p) (original_size p) (trail p) (max_trail_length p) v
    (last_collision_time p).

Definition set_last_collision_time (p : DebrisParticle) (v : Z)
  : DebrisParticle :=
  mkParticle (position p) (velocity p) (size p) (mass p) (material_type p)
    (material p) (angular_velocity p) (angle p) (forces p) (deformation p)
    (stress p) (original_size p) (trail p) (max_trail_length p)
    (collision_count p) v.

(** [DebrisParticle.apply_force] *)
Definition apply_force (p : DebrisParticle) (force : Vec2) : DebrisParticle :=
  set_forces p (vadd (forces p) force).

(** [DebrisParticle.update_deformation] *)
Definition update_deformation (p : DebrisParticle) (collision_force : Q)
  : DebrisParticle :=
  if MaterialType_eqb (material_type p) SEMI_RIGID then
    let stress_increment := collision_force / (mass p * 100) in
    let p := set_stress p (stress p + stress_increment) in
    let p :=
      if Qgtb (stress p) (deformation_threshold (material p)) then
        let deformation_amount :=
          (stress p - deformation_threshold (material p)) / 1000 in
        let p :=
          set_deformation p (py_min (deformation p + deformation_amount) 0.3) in
        set_size p (original_size p * (1 - deformation p))
      else p in
    set_stress p (stress p * 0.95)
  else p.

(** The ground block of [handle_boundary_collisions]; the boolean is
    [collision_occurred] after it. *)
Definition ground_collision (p : DebrisParticle) : DebrisParticle * bool :=
  if Qgtb (Y (position p) + size p) GROUND_Y then
    let p := set_position p (with_Y (position p) (GROUND_Y - size p)) in
    let collision_force := Qabs (Y (velocity p)) * mass p in
    let p :=
      if MaterialType_eqb (material_type p) RIGID then
        let p :=
          set_velocity p
            (with_Y (velocity p)
               (- Y (velocity p) * elasticity (material p))) in
        set_velocity p (with_X (velocity p) (X (velocity p) * FRICTION))
      else
        let p :=
          set_velocity p
            (with_Y (velocity p)
               (- Y (velocity p) * elasticity (material p)
                * damping (material p))) in
        set_velocity p (with_X (velocity p) (X (velocity p) * (FRICTION * 0.8)))
    in
    (update_deformation p collision_force, true)
  else (p, false).

(** The wall block of [handle_boundary_collisions]; the boolean tells
    whether either wall branch ran. *)
Definition wall_collision (p : DebrisParticle) : DebrisParticle * bool :=
  if Qltb (X (position p) - size p) 0 then
    let p := set_position p (with_X (position p) (size p)) in
    let p :=
      set_velocity p
        (with_X (velocity p) (- X (velocity p) * elasticity (material p))) in
    (p, true)
  else if Qgtb (X (position p) + size p) SCREEN_WIDTH then
    let p := set_position p (with_X (position p) (SCREEN_WIDTH - size p)) in
    let p :=
      set_velocity p
        (with_X (velocity p) (- X (velocity p) * elasticity (material p))) in
    (p, true)
  else (p, false).

(** The conditions of the two blocks: the ground test, and the disjunction
    of the two wall tests. *)
Definition touches_ground (p : DebrisParticle) : bool :=
  Qgtb (Y (position p) + size p) GROUND_Y.

Definition touches_wall (p : DebrisParticle) : bool :=
  Qltb (X (position p) - size p) 0
  || Qgtb (X (position p) + size p) SCREEN_WIDTH.

(** [DebrisParticle.handle_boundary_collisions] *)
Definition handle_boundary_collisions (p : DebrisParticle) (current_time : Z)
  : DebrisParticle :=
  let (p, ground_hit) := ground_collision p in
  let (p, wall_hit) := wall_collision p in
  let collision_occurred := ground_hit || wall_hit in
  if collision_occurred then
    let p := set_collision_count p (collision_count p + 1) in
    set_last_collision_time p current_time
  else p.

(** The trail update of [update]: append, then drop the oldest entry when
    the list has grown past [max_trail_length]. *)
Definition push_trail (p : DebrisParticle) : DebrisParticle :=
  let p := set_trail p (trail p ++ [position p]) in
  if Nat.ltb (max_trail_length p) (length (trail p))
  then set_trail p (tl (trail p))
  else p.

(** The body of [update] before the boundary collisions. *)
Definition integrate (p : DebrisParticle) (dt : Q) : DebrisParticle :=
  let gravity_force := vscale GRAVITY (mass p) in
  let p := apply_force p gravity_force in
  let acceleration := vdiv (forces p) (mass p) in
  let p := set_velocity p (vadd (velocity p) (vscale acceleration dt)) in
  let p := set_velocity p (vscale (velocity p) AIR_RESISTANCE) in
  let p := set_position p (vadd (position p) (vscale (velocity p) dt)) in
  let p := set_angular_velocity p (angular_velocity p * 0.99) in
  let p := set_angle p (angle p + angular_velocity p * dt) in
  let p := push_trail p in
  set_forces p (vec2 0 0).

(** [DebrisParticle.update] *)
Definition update (p : DebrisParticle) (dt : Q) (current_time : Z)
  : DebrisParticle :=
  handle_boundary_collisions (integrate p dt) current_time.

(** ** Explosion markers and the particle system *)

Record Explosion : Type := mkExplosion {
  exp_position : Vec2;
  exp_time : Z;
  exp_duration : Z
}.

Record ExplosionSystem : Type := mkSystem {
  particles : list DebrisParticle;
  explosions : list Explosion
}.

(** [ExplosionSystem.__init__] *)
Definition ExplosionSystem_init : ExplosionSystem := mkSystem [] [].

(** Rational stand-ins for the [math] functions, used to run the
    parametric definitions below on concrete inputs: the square root is
    exact on squares of rationals, cosine and sine are truncated series. *)
Definition approx_sqrt (q : Q) : Q :=
  inject_Z (Z.sqrt (Qnum q)) / inject_Z (Z.sqrt (Zpos (Qden q))).
Definition approx_cos (a : Q) : Q := 1 - a * a / 2 + a * a * a * a / 24.
Definition approx_sin (a : Q) : Q := a - a * a * a / 6.
Definition approx_pi : Q := 3.141592653589793.

(** A random source for concrete runs: a linear congruential sequence. *)
Definition lcg (n : nat) : Z :=
  Nat.iter n (fun s => (6364136223846793005 * s + 1442695040888963407)
                         mod 2 ^ 64)%Z 42%Z.
Definition lcg_rng : rng := mkRng lcg 0.

Section Simulation.

Variables math_sqrt math_cos math_sin : Q -> Q.
Variable math_pi : Q.

(** [Vector2D.magnitude], i.e. [numpy.linalg.norm] on two components. *)
Definition magnitude (vec : Vec2) : Q :=
  math_sqrt (X vec ^ 2 + Y vec ^ 2).

(** [DebrisParticle.__init__]; it draws the angular velocity and the angle
    from the random source and performs no check on its arguments. *)
Definition DebrisParticle_init (position velocity : Vec2) (size : Q)
    (material_type : MaterialType) (g : rng) : DebrisParticle * rng :=
  let mass := size ^ 2 * density (MATERIALS material_type) / 1000 in
  let (angular_velocity, g) := uniform (-5) 5 g in
  let (angle, g) := uniform 0 (2 * math_pi) g in
  (mkParticle position velocity size mass material_type
     (MATERIALS material_type) angular_velocity angle (vec2 0 0)
     0 0 size [] 10 0 0, g).

(** The loop of [create_explosion], [n] iterations left. *)
Fixpoint spawn_particles (n : nat) (position : Vec2) (force : Q)
    (material_type : MaterialType) (ps : list DebrisParticle) (g : rng)
  : list DebrisParticle * rng :=
  match n with
  | O => (ps, g)
  | S n' =>
      let (angle, g) := uniform 0 (2 * math_pi) g in
      let (speed, g) := uniform (force * 0.3) force g in
      let (bias, g) := uniform 0 200 g in
      let velocity :=
        vec2 (math_cos angle * speed) (math_sin angle * speed - bias) in
      let (offset_distance, g) := uniform 0 30 g in
      let offset :=
        vec2 (math_cos angle * offset_distance)
             (math_sin angle * offset_distance) in
      let particle_pos := vadd position offset in
      let (size, g) := uniform 3 15 g in
      let (particle, g) :=
        DebrisParticle_init particle_pos velocity size material_type g in
      spawn_particles n' position force material_type (ps ++ [particle]) g
  end.

(** [ExplosionSystem.create_explosion]; [ticks] is the clock reading.
    [range(particle_count)] is empty for a negative count. *)
Definition create_explosion (sys : ExplosionSystem) (position : Vec2)
    (force : Q) (particle_count : Z) (material_type : MaterialType)
    (g : rng) (ticks : Z) : ExplosionSystem * rng :=
  let (ps, g) :=
    spawn_particles (Z.to_nat particle_count) position force material_type
      (particles sys) g in
  (mkSystem ps (explosions sys ++ [mkExplosion position ticks 500]), g).

(** [ExplosionSystem.is_particle_active] *)
Definition is_particle_active (particle : DebrisParticle) : bool :=
  let slow_check :=
    if Qltb (magnitude (velocity particle)) 10
       && (collision_count particle >? 5)%Z
    then false else true in
  if Qltb (X (position particle)) (-100)
     || Qgtb (X (position particle)) (SCREEN_WIDTH + 100)
     || Qgtb (Y (position particle)) (SCREEN_HEIGHT + 100)
  then
    if Qltb (magnitude (velocity particle)) 50 then false else slow_check
  else slow_check.

(** [ExplosionSystem.update]; [current_time] is the clock reading. *)
Definition ExplosionSystem_update (sys : ExplosionSystem) (dt : Q)
    (current_time : Z) : ExplosionSystem :=
  let ps := filter is_particle_active (particles sys) in
  let ps := map (fun p => update p dt current_time) ps in
  mkSystem ps
    (filter (fun e => (current_time - exp_time e <? exp_duration e)%Z)
       (explosions sys)).

(** The main loop's calls of [update]: the [k]-th call reads [clock k];
    the result lists the system after each call. *)
Fixpoint simulate (clock : nat -> Z) (k : nat) (sys : ExplosionSystem)
    (dts : list Q) : list ExplosionSystem :=
  match dts with
  | [] => []
  | dt :: rest =>
      let sys' := ExplosionSystem_update sys dt (clock k) in
      sys' :: simulate clock (S k) sys' rest
  end.

(** What a trajectory records of a particle: everything but the time
    stamp of its last collision. *)
Definition kinematics (p : DebrisParticle) : DebrisParticle :=
  set_last_collision_time p 0.

(** Particle states that the program can produce: a constructed particle,
    then any sequence of method calls. *)
Inductive reachable : DebrisParticle -> Prop :=
| reach_init pos vel sz mt g :
    reachable (fst (DebrisParticle_init pos vel sz mt g))
| reach_apply_force p f :
    reachable p -> reachable (apply_force p f)
| reach_update_deformation p f :
    reachable p -> reachable (update_deformation p f)
| reach_handle_boundary_collisions p t :
    reachable p -> reachable (handle_boundary_collisions p t)
| reach_update p dt t :
    reachable p -> reachable (update p dt t).

(** The deformation invariant of a particle. *)
Definition deformation_inv (p : DebrisParticle) : Prop :=
  size p == original_size p * (1 - deformation p)
  /\ 0 <= deformation p <= 0.3.

(** ** Vocabulary of the properties *)

(** The fields that no method reassigns. *)
Definition same_body (p q : DebrisParticle) : Prop :=
  material_type q = material_type p /\ material q = material p
  /\ mass q = mass p /\ original_size q = original_size p.

(** A particle that never deformed. *)
Definition undeformed (p : DebrisParticle) : Prop :=
  deformation p = 0 /\ stress p = 0 /\ size p = original_size p.

(** The velocity that the ground block leaves behind. *)
Definition ground_response (p : DebrisParticle) : Vec2 :=
  if MaterialType_eqb (material_type p) RIGID
  then vec2 (X (velocity p) * FRICTION)
            (- Y (velocity p) * elasticity (material p))
  else vec2 (X (velocity p) * (FRICTION * 0.8))
            (- Y (velocity p) * elasticity (material p) * damping (material p)).

(** Whether some boundary test of [handle_boundary_collisions] fires:
    the ground test, or a wall test on what the ground block leaves. *)
Definition boundary_hit (p : DebrisParticle) : bool :=
  touches_ground p || touches_wall (fst (ground_collision p)).

(** What [create_explosion] promises of a particle it adds. *)
Definition spawned (mt : MaterialType) (p : DebrisParticle) : Prop :=
  material_type p = mt /\ material p = MATERIALS mt
  /\ 3 <= size p <= 15 /\ original_size p = size p
  /\ mass p = size p ^ 2 * density (MATERIALS mt) / 1000.

End Simulation.

(** * The rest of the program

    [Vector2D.normalize] and [Vector2D.distance], the particle counter,
    and the application object [DebrisSimulation]: its event handler and
    its main loop.  Rendering reads the state and never writes it, so the
    loop is modelled without its drawing calls. *)

Definition vsub (a b : Vec2) : Vec2 := vec2 (X a - X b) (Y a - Y b).

(** [ExplosionSystem.get_particle_count] *)
Definition get_particle_count (sys : ExplosionSystem) : Z :=
  Z.of_nat (length (particles sys)).

(** The keys the handler tells apart; [K_OTHER] is any other key. *)
Inductive Key : Type :=
| K_SPACE | K_c | K_1 | K_2 | K_3 | K_UP | K_DOWN | K_LEFT | K_RIGHT
| K_OTHER.

(** A pygame event as the handler sees it.  A mouse press carries what the
    handler reads while it serves the press: [pygame.mouse.get_pos()] and,
    inside [create_explosion], [pygame.time.get_ticks()]. *)
Inductive Event : Type :=
| QUIT
| KEYDOWN (key : Key)
| MOUSEBUTTONDOWN (button : Z) (mouse_pos : Z * Z) (ticks : Z)
| OTHER_EVENT.

(** The simulation state of [DebrisSimulation] (the window, the clock and
    the fonts are handles of the host). *)
Record DebrisSimulation : Type := mkSimulation {
  explosion_system : ExplosionSystem;
  running : bool;
  paused : bool;
  current_material : MaterialType;
  explosion_force : Z;
  particle_count : Z
}.

(** [DebrisSimulation.__init__] *)
Definition DebrisSimulation_init : DebrisSimulation :=
  mkSimulation ExplosionSystem_init true false SEMI_RIGID 300 20.

Definition set_explosion_system (s : DebrisSimulation) (v : ExplosionSystem)
  : DebrisSimulation :=
  mkSimulation v (running s) (paused s) (current_material s)
    (explosion_force s) (particle_count s).

Definition set_running (s : DebrisSimulation) (v : bool) : DebrisSimulation :=
  mkSimulation (explosion_system s) v (paused s) (current_material s)
    (explosion_force s) (particle_count s).

Definition set_paused (s : DebrisSimulation) (v : bool) : DebrisSimulation :=
  mkSimulation (explosion_system s) (running s) v (current_material s)
    (explosion_force s) (particle_count s).

Definition set_current_material (s : DebrisSimulation) (v : MaterialType)
  : DebrisSimulation :=
  mkSimulation (explosion_system s) (running s) (paused s) v
    (explosion_force s) (particle_count s).

Definition set_explosion_force (s : DebrisSimulation) (v : Z)
  : DebrisSimulation :=
  mkSimulation (explosion_system s) (running s) (paused s)
    (current_material s) v (particle_count s).

Definition set_particle_count (s : DebrisSimulation) (v : Z)
  : DebrisSimulation :=
  mkSimulation (explosion_system s) (running s) (paused s)
    (current_material s) (explosion_force s) v.

(** One frame's inputs to the main loop: the milliseconds returned by
    [clock.tick(FPS)], the queued events, and the clock reading taken by
    [ExplosionSystem.update]. *)
Record FrameInput : Type := mkFrameInput {
  tick_ms : Z;
  events : list Event;
  update_ticks : Z
}.

Section Application.

Variables math_sqrt math_cos math_sin : Q -> Q.
Variable math_pi : Q.

(** [Vector2D.normalize] *)
Definition normalize (vec : Vec2) : Vec2 :=
  let mag := magnitude math_sqrt vec in
  if Qeq_bool mag 0 then vec else vdiv vec mag.

(** [Vector2D.distance] *)
Definition distance (pos1 pos2 : Vec2) : Q :=
  magnitude math_sqrt (vsub pos2 pos1).

(** The body of the event loop of [handle_events], for one event. *)
Definition handle_event (s : DebrisSimulation) (event : Event) (g : rng)
  : DebrisSimulation * rng :=
  match event with
  | QUIT => (set_running s false, g)
  | KEYDOWN key =>
      (match key with
       | K_SPACE => set_paused s (negb (paused s))
       | K_c =>
           set_explosion_system s
             (mkSystem [] (explosions (explosion_system s)))
       | K_1 => set_current_material s RIGID
       | K_2 => set_current_material s SEMI_RIGID
       | K_3 => set_current_material s SOFT
       | K_UP => set_explosion_force s (Z.min 1000 (explosion_force s + 50))
       | K_DOWN => set_explosion_force s (Z.max 100 (explosion_force s - 50))
       | K_LEFT => set_particle_count s (Z.max 5 (particle_count s - 5))
       | K_RIGHT => set_particle_count s (Z.min 50 (particle_count s + 5))
       | K_OTHER => s
       end, g)
  | MOUSEBUTTONDOWN button (mx, my) ticks =>
      if (button =? 1)%Z then
        let mouse_pos := vec2 (inject_Z mx) (inject_Z my) in
        let (sys, g) :=
          create_explosion math_cos math_sin math_pi (explosion_system s)
            mouse_pos (inject_Z (explosion_force s)) (particle_count s)
            (current_material s) g ticks in
        (set_explosion_system s sys, g)
      else (s, g)
  | OTHER_EVENT => (s, g)
  end.

(** [DebrisSimulation.handle_events], on the queue [pygame.event.get()]
    returned. *)
Fixpoint handle_events (s : DebrisSimulation) (queue : list Event) (g : rng)
  : DebrisSimulation * rng :=
  match queue with
  | [] => (s, g)
  | event :: rest =>
      let (s, g) := handle_event s event g in handle_events s rest g
  end.

(** One iteration of the loop of [DebrisSimulation.run]. *)
Definition frame (s : DebrisSimulation) (inp : FrameInput) (g : rng)
  : DebrisSimulation * rng :=
  let dt := inject_Z (tick_ms inp) / 1000 in
  let (s, g) := handle_events s (events inp) g in
  let s :=
    if negb (paused s) then
      set_explosion_system s
        (ExplosionSystem_update math_sqrt (explosion_system s) dt
           (update_ticks inp))
    else s in
  (s, g).

(** [DebrisSimulation.run] over the frames for which inputs are given:
    the loop tests [running] before each frame. *)
Fixpoint run (s : DebrisSimulation) (inputs : list FrameInput) (g : rng)
  : DebrisSimulation * rng :=
  match inputs with
  | [] => (s, g)
  | inp :: rest =>
      if running s then let (s, g) := frame s inp g in run s rest g
      else (s, g)
  end.

(** Particle states of a running simulation: a particle constructed with
    a size in [[3, 15]], the range [create_explosion] draws from, then
    forces applied and steps taken. *)
Inductive simulated : DebrisParticle -> Prop :=
| simulated_init pos vel sz mt g :
    3 <= sz <= 15 ->
    simulated (fst (DebrisParticle_init math_pi pos vel sz mt g))
| simulated_apply_force p f :
    simulated p -> simulated (apply_force p f)
| simulated_update p dt t :
    simulated p -> simulated (update p dt t).

End Application.

(** Whether the particle lies inside the walls and above the ground. *)
Definition inside_box (p : DebrisParticle) : Prop :=
  Y (position p) + size p <= GROUND_Y
  /\ 0 <= X (position p) - size p
  /\ X (position p) + size p <= SCREEN_WIDTH.

(** The state in which [DebrisParticle.__init__] leaves a particle, apart
    from the arguments it stores. *)
Definition pristine (p : DebrisParticle) : Prop :=
  deformation p = 0 /\ stress p = 0 /\ forces p = vec2 0 0
  /\ trail p = [] /\ max_trail_length p = 10%nat
  /\ collision_count p = 0%Z /\ last_collision_time p = 0%Z
  /\ original_size p = size p
  /\ -5 <= angular_velocity p <= 5.

(** The settings the user can change stay within these bounds. *)
Definition settings_ok (s : DebrisSimulation) : Prop :=
  (100 <= explosion_force s <= 1000)%Z
  /\ (5 <= particle_count s <= 50)%Z.

(** What every particle of the application satisfies. *)
Definition healthy (p : DebrisParticle) : Prop :=
  0 < mass p /\ 0 <= stress p /\ deformation_inv p
  /\ 3 <= original_size p <= 15
  /\ max_trail_length p = 10%nat /\ (length (trail p) <= 10)%nat
  /\ material p = MATERIALS (material_type p).

(** Events that reach neither the pause flag nor the particle system:
    everything but the space key, the [c] key and a left click. *)
Definition leaves_system_alone (e : Event) : Prop :=
  match e with
  | KEYDOWN K_SPACE | KEYDOWN K_c => False
  | MOUSEBUTTONDOWN button _ _ => button <> 1%Z
  | _ => True
  end.

(** ** Rendering

    The drawing methods only issue [pygame.draw] calls; a call is recorded
    as a [DrawCommand] and a method returns the calls it makes, in order.
    A width of 0 is pygame's default (a filled shape). *)

Definition Color : Type := (Z * Z * Z)%type.

Inductive DrawCommand : Type :=
| draw_line (color : Color) (start_pos end_pos : Z * Z) (width : Z)
| draw_polygon (color : Color) (points : list (Q * Q))
| draw_circle (color : Color) (center : Z * Z) (radius : Z) (width : Z).

(** [int(x)] on a float, and [astype(int)] on an array: rounding towards
    zero. *)
Definition py_int (q : Q) : Z := Z.quot (Qnum q) (Zpos (Qden q)).

Definition astype_int (v : Vec2) : Z * Z := (py_int (X v), py_int (Y v)).

(** [range(start, stop, step)] for a positive step. *)
Definition py_range (start stop step : Z) : list Z :=
  map (fun k => start + step * Z.of_nat k)%Z
    (seq 0 (Z.to_nat ((stop - start + step - 1) / step))).

(** The pairs [(trail[i], trail[i + 1])] for [i] in
    [range(len(trail) - 1)]. *)
Fixpoint segments (l : list Vec2) : list (Vec2 * Vec2) :=
  match l with
  | a :: (b :: _) as rest => (a, b) :: segments rest
  | _ => []
  end.

(** The channels of a colour are bytes. *)
Definition valid_color (c : Color) : Prop :=
  let '(r, g, b) := c in
  (0 <= r <= 255 /\ 0 <= g <= 255 /\ 0 <= b <= 255)%Z.

Definition command_color (c : DrawCommand) : Color :=
  match c with
  | draw_line color _ _ _ => color
  | draw_polygon color _ => color
  | draw_circle color _ _ _ => color
  end.

Section Rendering.

Variables math_sqrt math_cos math_sin : Q -> Q.
Variable math_pi : Q.

(** The trail loop of [DebrisParticle.draw]: a segment is drawn when its
    start lies on the screen.  (The loop also computes an alpha value that
    it never uses.) *)
Definition draw_trail (p : DebrisParticle) : list DrawCommand :=
  flat_map
    (fun seg : Vec2 * Vec2 =>
       let start_pos := astype_int (fst seg) in
       let end_pos := astype_int (snd seg) in
       if (0 <=? fst start_pos)%Z
          && Qltb (inject_Z (fst start_pos)) SCREEN_WIDTH
          && (0 <=? snd start_pos)%Z
          && Qltb (inject_Z (snd start_pos)) SCREEN_HEIGHT
       then [draw_line (color (material p)) start_pos end_pos 2]
       else [])
    (segments (trail p)).

(** The colour of the body: the material's colour, with the red channel
    raised by the stress for a SemiRigid particle. *)
Definition body_color (p : DebrisParticle) : Color :=
  let '(r, g, b) := color (material p) in
  if MaterialType_eqb (material_type p) SEMI_RIGID then
    let stress_factor :=
      py_min (stress p / deformation_threshold (material p)) 1 in
    (Z.min 255 (py_int (inject_Z r + stress_factor * 100)), g, b)
  else (r, g, b).

(** The shape of the body: a square for Rigid, a disc otherwise, with a
    ring around a deformed SemiRigid particle. *)
Definition draw_body (p : DebrisParticle) : list DrawCommand :=
  let base_color := body_color p in
  let pos := astype_int (position p) in
  let size := py_int (size p) in
  if MaterialType_eqb (material_type p) RIGID then
    let points :=
      map (fun i : Z =>
             let angle := angle p + inject_Z i * math_pi / 2 in
             (inject_Z (fst pos) + inject_Z size * math_cos angle,
              inject_Z (snd pos) + inject_Z size * math_sin angle))
        (py_range 0 4 1) in
    [draw_polygon base_color points]
  else
    draw_circle base_color pos size 0
    :: (if MaterialType_eqb (material_type p) SEMI_RIGID
           && Qgtb (deformation p) 0
        then
          let deform_size := py_int (inject_Z size * (1 + deformation p)) in
          [draw_circle (255, 100, 100)%Z pos deform_size 2]
        else []).

(** The velocity indicator. *)
Definition draw_velocity (p : DebrisParticle) : list DrawCommand :=
  let pos := astype_int (position p) in
  if Qgtb (magnitude math_sqrt (velocity p)) 10 then
    let d := astype_int (vscale (velocity p) 0.1) in
    let vel_end := (fst pos + fst d, snd pos + snd d)%Z in
    [draw_line (255, 255, 255)%Z pos vel_end 2]
  else [].

(** [DebrisParticle.draw] *)
Definition DebrisParticle_draw (p : DebrisParticle) : list DrawCommand :=
  draw_trail p ++ draw_body p ++ draw_velocity p.

(** The effect [ExplosionSystem.draw] paints for one marker at clock
    reading [current_time].  (The source also computes an alpha value that
    it never uses.) *)
Definition draw_explosion (current_time : Z) (e : Explosion)
  : list DrawCommand :=
  let progress :=
    inject_Z (current_time - exp_time e) / inject_Z (exp_duration e) in
  if Qltb progress 1 then
    let radius := py_int (50 * progress) in
    let pos := astype_int (exp_position e) in
    flat_map
      (fun r : Z =>
         let color_intensity :=
           py_int (255 * (1 - inject_Z r / inject_Z radius)
                   * (1 - progress)) in
         let color :=
           (Z.min 255 (color_intensity + 100), color_intensity, 0%Z) in
         if (r <? radius)%Z then [draw_circle color pos r 2] else [])
      (py_range 0 radius 5)
  else [].

(** [ExplosionSystem.draw]; [current_time] is the clock reading.  The
    markers this program creates have duration 500, so the division in
    [draw_explosion] is by a nonzero number. *)
Definition ExplosionSystem_draw (sys : ExplosionSystem) (current_time : Z)
  : list DrawCommand :=
  flat_map (draw_explosion current_time) (explosions sys)
  ++ flat_map DebrisParticle_draw (particles sys).

End Rendering.

(** * Properties *)

(** ** Comparisons *)

Lemma Qltb_true (a b : Q) : Qltb a b = true <-> a < b.
Proof.
  unfold Qltb. rewrite Qlt_alt. destruct (a ?= b); split; congruence.
Qed.

Lemma Qltb_false (a b : Q) : Qltb a b = false <-> b <= a.
Proof.
  unfold Qltb. rewrite Qle_alt, <- Qgt_alt, Qlt_alt.
  destruct (a ?= b); split; congruence.
Qed.

Ltac case_Qltb a b :=
  let H := fresh "Hcmp" in
  destruct (Qltb a b) eqn:H;
  [apply Qltb_true in H | apply Qltb_false in H].

Lemma py_min_le_r (a b : Q) : py_min a b <= b.
Proof. unfold py_min. case_Qltb b a; lra. Qed.

Lemma py_min_ge (a b c : Q) : c <= a -> c <= b -> c <= py_min a b.
Proof. unfold py_min. case_Qltb b a; lra. Qed.

(** ** The random source stays in the unit interval *)

Lemma random_range (g : rng) : 0 <= fst (random g) < 1.
Proof.
  unfold random; simpl fst.
  set (r := (raw g (cursor g) mod 2 ^ 53)%Z).
  assert (Hr : (0 <= r < 2 ^ 53)%Z) by (apply Z.mod_pos_bound; lia).
  assert (Hd : 0 < inject_Z (2 ^ 53)) by (rewrite <- (Zlt_Qlt 0); lia).
  split.
  - apply Qle_shift_div_l; [exact Hd|].
    rewrite Qmult_0_l, <- (Zle_Qle 0). lia.
  - apply Qlt_shift_div_r; [exact Hd|].
    rewrite Qmult_1_l, <- Zlt_Qlt. lia.
Qed.

Lemma uniform_range (a b : Q) (g : rng) :
  a <= b -> a <= fst (uniform a b g) <= b.
Proof.
  intros Hab. unfold uniform.
  pose proof (random_range g) as Hu.
  destruct (random g) as [u g']; simpl in *. nra.
Qed.

(** ** What the methods leave alone

    No method reassigns the material, the mass or the original size. *)

Ltac break_if :=
  match goal with
  | |- context [if ?c then _ else _] => destruct c eqn:?
  end.

Lemma same_body_refl p : same_body p p.
Proof. repeat split. Qed.

Lemma same_body_trans p q r : same_body p q -> same_body q r -> same_body p r.
Proof. unfold same_body. intuition congruence. Qed.

Lemma update_deformation_body p f : same_body p (update_deformation p f).
Proof.
  unfold update_deformation. repeat break_if; repeat split.
Qed.

Lemma ground_collision_body p : same_body p (fst (ground_collision p)).
Proof.
  unfold ground_collision. break_if; [|apply same_body_refl].
  simpl fst. eapply same_body_trans; [|apply update_deformation_body].
  break_if; repeat split.
Qed.

Lemma wall_collision_body p : same_body p (fst (wall_collision p)).
Proof.
  unfold wall_collision. repeat break_if; repeat split.
Qed.

Lemma handle_boundary_collisions_body p t :
  same_body p (handle_boundary_collisions p t).
Proof.
  unfold handle_boundary_collisions.
  pose proof (ground_collision_body p) as Hg.
  destruct (ground_collision p) as [p1 g]; simpl in Hg.
  pose proof (wall_collision_body p1) as Hw.
  destruct (wall_collision p1) as [p2 w]; simpl in Hw.
  eapply same_body_trans; [exact Hg|].
  eapply same_body_trans; [exact Hw|].
  break_if; repeat split.
Qed.

Lemma integrate_body p dt : same_body p (integrate p dt).
Proof.
  unfold integrate, push_trail. break_if; repeat split.
Qed.

Lemma update_body p dt t : same_body p (update p dt t).
Proof.
  unfold update. eapply same_body_trans;
    [apply integrate_body | apply handle_boundary_collisions_body].
Qed.

(** ** Deformation *)

Lemma update_deformation_not_semi_rigid p f :
  material_type p <> SEMI_RIGID -> update_deformation p f = p.
Proof.
  intros H. unfold update_deformation.
  destruct (material_type p); try reflexivity. now elim H.
Qed.

(** One call of [update_deformation] keeps the invariant and never lowers
    the deformation, whatever the force and the material. *)
Lemma update_deformation_inv p f :
  deformation_inv p ->
  deformation_inv (update_deformation p f)
  /\ deformation p <= deformation (update_deformation p f).
Proof.
  intros [Hsize [Hlo Hhi]]. unfold update_deformation.
  destruct (MaterialType_eqb (material_type p) SEMI_RIGID).
  2:{ repeat split; try assumption; lra. }
  cbn [stress set_stress material deformation].
  set (s := stress p + f / (mass p * 100)).
  set (thr := deformation_threshold (material p)).
  unfold Qgtb, deformation_inv. case_Qltb thr s.
  - cbn.
    set (amount := (s - thr) / 1000).
    assert (Hamount : 0 <= amount).
    { unfold amount. apply Qle_shift_div_l; lra. }
    split; [split; [|split]|].
    + reflexivity.
    + apply py_min_ge; lra.
    + apply py_min_le_r.
    + apply py_min_ge; lra.
  - cbn. repeat split; try assumption; lra.
Qed.

Lemma ground_collision_inv p :
  deformation_inv p ->
  deformation_inv (fst (ground_collision p))
  /\ deformation p <= deformation (fst (ground_collision p)).
Proof.
  intros H. unfold ground_collision.
  break_if; simpl fst; [|split; [assumption | lra]].
  break_if;
    match goal with
    | |- context [update_deformation ?q ?f] =>
        exact (update_deformation_inv q f H)
    end.
Qed.

Lemma wall_collision_shape p :
  deformation (fst (wall_collision p)) = deformation p
  /\ stress (fst (wall_collision p)) = stress p
  /\ size (fst (wall_collision p)) = size p.
Proof.
  unfold wall_collision. repeat break_if; repeat split.
Qed.

Lemma handle_boundary_collisions_inv p t :
  deformation_inv p ->
  deformation_inv (handle_boundary_collisions p t)
  /\ deformation p <= deformation (handle_boundary_collisions p t).
Proof.
  intros H. unfold handle_boundary_collisions.
  destruct (ground_collision_inv p H) as [Hg Hm].
  pose proof (ground_collision_body p) as Hb.
  destruct (ground_collision p) as [p1 g]; simpl in Hg, Hm, Hb.
  destruct (wall_collision_shape p1) as (Hd & _ & Hs).
  pose proof (wall_collision_body p1) as (_ & _ & _ & Ho).
  destruct (wall_collision p1) as [p2 w]; simpl in Hd, Hs, Ho.
  assert (Hinv : deformation_inv p2).
  { unfold deformation_inv in *. now rewrite Hd, Hs, Ho. }
  break_if; (split; [exact Hinv | cbn; rewrite Hd; exact Hm]).
Qed.

Lemma integrate_shape p dt :
  deformation (integrate p dt) = deformation p
  /\ stress (integrate p dt) = stress p
  /\ size (integrate p dt) = size p.
Proof.
  unfold integrate, push_trail. break_if; repeat split.
Qed.

Lemma update_inv p dt t :
  deformation_inv p ->
  deformation_inv (update p dt t)
  /\ deformation p <= deformation (update p dt t).
Proof.
  intros H. unfold update.
  destruct (integrate_shape p dt) as (Hd & _ & Hs).
  pose proof (integrate_body p dt) as (_ & _ & _ & Ho).
  rewrite <- Hd. apply handle_boundary_collisions_inv.
  unfold deformation_inv in *. now rewrite Hd, Hs, Ho.
Qed.

Lemma reachable_deformation_inv (math_pi : Q) p :
  reachable math_pi p -> deformation_inv p.
Proof.
  induction 1.
  - unfold DebrisParticle_init, uniform.
    destruct (random g) as [u g1]; destruct (random g1) as [v g2].
    unfold deformation_inv; cbn. split; [ring | lra].
  - exact IHreachable.
  - now apply update_deformation_inv.
  - now apply handle_boundary_collisions_inv.
  - now apply update_inv.
Qed.

(** C1: for a SemiRigid particle in any state the program can produce,
    [size = original_size * (1 - deformation)] and the deformation lies in
    [[0, 0.3]]; both still hold after a call of [update_deformation] with
    any force, and neither that call nor a whole step lowers the
    deformation. *)
Theorem semi_rigid_deformation_invariant (math_pi : Q) (p : DebrisParticle) :
  reachable math_pi p ->
  material_type p = SEMI_RIGID ->
  (size p == original_size p * (1 - deformation p)
   /\ 0 <= deformation p <= 0.3)
  /\ (forall f,
        let p' := update_deformation p f in
        size p' == original_size p' * (1 - deformation p')
        /\ deformation p <= deformation p'
        /\ 0 <= deformation p' <= 0.3)
  /\ (forall dt t, deformation p <= deformation (update p dt t)).
Proof.
  intros Hreach _.
  pose proof (reachable_deformation_inv _ p Hreach) as Hinv.
  split; [exact Hinv|]. split.
  - intros f p'. subst p'.
    destruct (update_deformation_inv p f Hinv) as [[Hs Hr] Hm].
    repeat split; tauto.
  - intros dt t. now apply update_inv.
Qed.

(** ** Rigid and soft particles *)

Lemma handle_boundary_collisions_shape p t :
  material_type p <> SEMI_RIGID ->
  deformation (handle_boundary_collisions p t) = deformation p
  /\ stress (handle_boundary_collisions p t) = stress p
  /\ size (handle_boundary_collisions p t) = size p.
Proof.
  intros Hm. unfold handle_boundary_collisions.
  assert (Hg : deformation (fst (ground_collision p)) = deformation p
               /\ stress (fst (ground_collision p)) = stress p
               /\ size (fst (ground_collision p)) = size p).
  { unfold ground_collision. break_if; [|repeat split]. simpl fst.
    break_if; (rewrite update_deformation_not_semi_rigid by exact Hm);
      repeat split. }
  destruct (ground_collision p) as [p1 g]; simpl in Hg.
  pose proof (wall_collision_shape p1) as Hw.
  destruct (wall_collision p1) as [p2 w]; simpl in Hw.
  break_if; cbn; intuition congruence.
Qed.

Lemma update_shape p dt t :
  material_type p <> SEMI_RIGID ->
  deformation (update p dt t) = deformation p
  /\ stress (update p dt t) = stress p
  /\ size (update p dt t) = size p.
Proof.
  intros Hm. unfold update.
  destruct (integrate_body p dt) as (Ht & _).
  destruct (integrate_shape p dt) as (Jd & Js & Jz).
  assert (Hm' : material_type (integrate p dt) <> SEMI_RIGID)
    by (now rewrite Ht).
  destruct (handle_boundary_collisions_shape _ t Hm') as (Hd & Hs & Hz).
  rewrite Hd, Hs, Hz. auto.
Qed.

Lemma reachable_undeformed (math_pi : Q) p :
  reachable math_pi p -> material_type p <> SEMI_RIGID -> undeformed p.
Proof.
  induction 1; intros Hm.
  - unfold DebrisParticle_init, uniform.
    destruct (random g) as [u g1]; destruct (random g1) as [v g2].
    repeat split.
  - apply IHreachable. exact Hm.
  - destruct (update_deformation_body p f) as [Ht _]. rewrite Ht in Hm.
    rewrite update_deformation_not_semi_rigid by exact Hm. auto.
  - destruct (handle_boundary_collisions_body p t) as (Ht & _ & _ & Ho).
    rewrite Ht in Hm.
    destruct (handle_boundary_collisions_shape p t Hm) as (Hd & Hs & Hz).
    destruct (IHreachable Hm) as (Id & Is & Iz).
    unfold undeformed. rewrite Hd, Hs, Hz, Ho. auto.
  - destruct (update_body p dt t) as (Ht & _ & _ & Ho). rewrite Ht in Hm.
    destruct (update_shape p dt t Hm) as (Hd & Hs & Hz).
    destruct (IHreachable Hm) as (Id & Is & Iz).
    unfold undeformed. rewrite Hd, Hs, Hz, Ho. auto.
Qed.

(** C2: for a Rigid or Soft particle [update_deformation] returns the
    particle unchanged whatever the force, and in every state the program
    can produce its deformation and stress are 0 and its size is the
    original size. *)
Theorem rigid_soft_update_deformation_noop (math_pi : Q) (p : DebrisParticle) :
  material_type p = RIGID \/ material_type p = SOFT ->
  (forall f, update_deformation p f = p)
  /\ (reachable math_pi p ->
      deformation p = 0 /\ stress p = 0 /\ size p = original_size p
      /\ forall dt t,
           deformation (update p dt t) = 0 /\ stress (update p dt t) = 0
           /\ size (update p dt t) = size p).
Proof.
  intros Hkind.
  assert (Hm : material_type p <> SEMI_RIGID)
    by (destruct Hkind as [H | H]; rewrite H; discriminate).
  split.
  - intros f. now apply update_deformation_not_semi_rigid.
  - intros Hreach.
    destruct (reachable_undeformed _ p Hreach Hm) as (Hd & Hs & Hz).
    repeat split; try assumption; intros.
    + assert (Hr : reachable math_pi (update p dt t)) by now constructor.
      destruct (update_body p dt t) as (Ht & _).
      apply (reachable_undeformed _ _ Hr). now rewrite Ht.
    + assert (Hr : reachable math_pi (update p dt t)) by now constructor.
      destruct (update_body p dt t) as (Ht & _).
      apply (reachable_undeformed _ _ Hr). now rewrite Ht.
    + assert (Hr : reachable math_pi (update p dt t)) by now constructor.
      destruct (update_body p dt t) as (Ht & _ & _ & Ho).
      destruct (reachable_undeformed _ _ Hr) as (_ & _ & Hz').
      { now rewrite Ht. }
      now rewrite Hz', Ho, Hz.
Qed.

(** ** Boundary collisions *)

Lemma ground_collision_hit p : snd (ground_collision p) = touches_ground p.
Proof.
  unfold ground_collision, touches_ground. now break_if.
Qed.

Lemma wall_collision_hit p : snd (wall_collision p) = touches_wall p.
Proof.
  unfold wall_collision, touches_wall.
  destruct (Qltb (X (position p) - size p) 0); [reflexivity|]. cbn [orb].
  destruct (Qgtb (X (position p) + size p) SCREEN_WIDTH); reflexivity.
Qed.

(** [update_deformation] touches neither position nor velocity. *)
Lemma update_deformation_motion p f :
  position (update_deformation p f) = position p
  /\ velocity (update_deformation p f) = velocity p.
Proof.
  unfold update_deformation. repeat break_if; split; reflexivity.
Qed.

Lemma ground_collision_motion p :
  touches_ground p = true ->
  velocity (fst (ground_collision p)) = ground_response p
  /\ position (fst (ground_collision p))
     = vec2 (X (position p)) (GROUND_Y - size p).
Proof.
  unfold touches_ground, ground_collision, ground_response. intros ->.
  simpl fst.
  break_if;
    match goal with
    | |- context [update_deformation ?q ?f] =>
        destruct (update_deformation_motion q f) as [-> ->]
    end; split; reflexivity.
Qed.

Lemma wall_collision_vertical p :
  Y (position (fst (wall_collision p))) = Y (position p)
  /\ Y (velocity (fst (wall_collision p))) = Y (velocity p).
Proof.
  unfold wall_collision. repeat break_if; split; reflexivity.
Qed.

Lemma wall_collision_horizontal p :
  X (velocity (fst (wall_collision p)))
  = if touches_wall p
    then - X (velocity p) * elasticity (material p)
    else X (velocity p).
Proof.
  unfold wall_collision, touches_wall.
  destruct (Qltb (X (position p) - size p) 0); [reflexivity|]. cbn [orb].
  destruct (Qgtb (X (position p) + size p) SCREEN_WIDTH); reflexivity.
Qed.

Lemma handle_boundary_collisions_motion p t :
  velocity (handle_boundary_collisions p t)
  = velocity (fst (wall_collision (fst (ground_collision p))))
  /\ position (handle_boundary_collisions p t)
     = position (fst (wall_collision (fst (ground_collision p)))).
Proof.
  unfold handle_boundary_collisions.
  destruct (ground_collision p) as [p1 g]; simpl fst.
  destruct (wall_collision p1) as [p2 w]; simpl fst.
  break_if; split; reflexivity.
Qed.

Lemma ground_collision_shape p :
  material_type p <> SEMI_RIGID ->
  deformation (fst (ground_collision p)) = deformation p
  /\ stress (fst (ground_collision p)) = stress p
  /\ size (fst (ground_collision p)) = size p.
Proof.
  intros Hm. unfold ground_collision. break_if; [|repeat split]. simpl fst.
  break_if; (rewrite update_deformation_not_semi_rigid by exact Hm);
    repeat split.
Qed.

(** C3: on ground contact [handle_boundary_collisions] sets [position.y]
    to [GROUND_Y - size]; the ground block sets [velocity.y] to
    [-velocity.y * elasticity] and [velocity.x] to [velocity.x * FRICTION]
    for Rigid, and to [-velocity.y * elasticity * damping] and
    [velocity.x * (FRICTION * 0.8)] for SemiRigid and Soft.  These are the
    final values whenever no wall test fires afterwards ([velocity.y] in
    every case).  A Rigid particle arriving with velocity (100, 200) away
    from the walls leaves with velocity (100 * FRICTION, -40). *)
Theorem ground_contact_response (p : DebrisParticle) (t : Z) :
  GROUND_Y < Y (position p) + size p ->
  let p' := handle_boundary_collisions p t in
  let after_ground := fst (ground_collision p) in
  let e := elasticity (material p) in
  let d := damping (material p) in
  Y (position p') = GROUND_Y - size p
  /\ match material_type p with
     | RIGID =>
         Y (velocity p') = - Y (velocity p) * e
         /\ X (velocity after_ground) = X (velocity p) * FRICTION
         /\ (touches_wall after_ground = false ->
             X (velocity p') = X (velocity p) * FRICTION)
     | SEMI_RIGID | SOFT =>
         Y (velocity p') = - Y (velocity p) * e * d
         /\ X (velocity after_ground) = X (velocity p) * (FRICTION * 0.8)
         /\ (touches_wall after_ground = false ->
             X (velocity p') = X (velocity p) * (FRICTION * 0.8))
     end
  /\ (material_type p = RIGID -> material p = MATERIALS RIGID ->
      velocity p = vec2 100 200 ->
      0 <= X (position p) - size p ->
      X (position p) + size p <= SCREEN_WIDTH ->
      X (velocity p') == 100 * FRICTION /\ Y (velocity p') == -40).
Proof.
  intros Hground p' after_ground e d. subst p' after_ground e d.
  assert (Htg : touches_ground p = true)
    by (now apply Qltb_true).
  destruct (ground_collision_motion p Htg) as [Hv Hp].
  destruct (handle_boundary_collisions_motion p t) as [Hv' Hp'].
  destruct (wall_collision_vertical (fst (ground_collision p))) as [Hwp Hwv].
  pose proof (wall_collision_horizontal (fst (ground_collision p))) as Hwh.
  set (after_ground := fst (ground_collision p)) in *.
  set (p' := handle_boundary_collisions p t) in *.
  assert (HY : Y (position p') = GROUND_Y - size p)
    by (now rewrite Hp', Hwp, Hp).
  assert (HvY : Y (velocity p') = Y (ground_response p))
    by (now rewrite Hv', Hwv, Hv).
  assert (HvX : touches_wall after_ground = false ->
                X (velocity p') = X (ground_response p))
    by (intros Hw; now rewrite Hv', Hwh, Hw, Hv).
  split; [exact HY|]. split.
  - unfold ground_response in *.
    destruct (material_type p); cbn in *; rewrite Hv; cbn; auto.
  - intros Hrigid Hmat Hvel Hleft Hright.
    assert (Hsemi : material_type p <> SEMI_RIGID)
      by (rewrite Hrigid; discriminate).
    destruct (ground_collision_shape p Hsemi) as (_ & _ & Hsz).
    assert (Hw : touches_wall after_ground = false).
    { fold after_ground in Hsz. unfold touches_wall. rewrite Hp, Hsz.
      cbn [X position].
      apply orb_false_iff; split; apply Qltb_false; assumption. }
    rewrite HvY, (HvX Hw). unfold ground_response.
    rewrite Hrigid, Hmat, Hvel. cbn. split; [reflexivity | ].
    unfold Qeq; reflexivity.
Qed.

(** ** Stress *)

Lemma update_deformation_stress p f :
  material_type p = SEMI_RIGID ->
  stress (update_deformation p f) = (stress p + f / (mass p * 100)) * 0.95.
Proof.
  intros Hm. unfold update_deformation. rewrite Hm. cbn.
  break_if; reflexivity.
Qed.

Lemma wall_collision_stress p : stress (fst (wall_collision p)) = stress p.
Proof. apply wall_collision_shape. Qed.

Lemma handle_boundary_collisions_stress p t :
  stress (handle_boundary_collisions p t) = stress (fst (ground_collision p)).
Proof.
  unfold handle_boundary_collisions.
  destruct (ground_collision p) as [p1 g]; simpl fst.
  pose proof (wall_collision_stress p1) as Hw.
  destruct (wall_collision p1) as [p2 w]; simpl in Hw.
  break_if; cbn; exact Hw.
Qed.

Lemma ground_collision_miss p :
  touches_ground p = false -> ground_collision p = (p, false).
Proof.
  unfold ground_collision, touches_ground. now intros ->.
Qed.

Lemma ground_collision_stress p :
  touches_ground p = true ->
  material_type p = SEMI_RIGID ->
  stress (fst (ground_collision p))
  = (stress p + Qabs (Y (velocity p)) * mass p / (mass p * 100)) * 0.95.
Proof.
  unfold ground_collision, touches_ground. intros -> Hm. simpl fst.
  break_if; rewrite update_deformation_stress by exact Hm; reflexivity.
Qed.

(** C4, as the code has it: the relaxation [stress *= 0.95] is the last
    statement of [update_deformation], so for a SemiRigid particle a call
    with force [f] leaves [(stress + f / (mass * 100)) * 0.95]; a step
    reaches that call only on ground contact, with the force
    [|velocity.y| * mass], and a step without ground contact leaves the
    stress as it was. *)
Theorem stress_relaxes_on_ground_contact (p : DebrisParticle) :
  material_type p = SEMI_RIGID ->
  (forall f,
     stress (update_deformation p f)
     = (stress p + f / (mass p * 100)) * 0.95)
  /\ (forall dt t,
        touches_ground (integrate p dt) = false ->
        stress (update p dt t) = stress p)
  /\ (forall dt t,
        touches_ground (integrate p dt) = true ->
        stress (update p dt t)
        = (stress p
           + Qabs (Y (velocity (integrate p dt))) * mass p / (mass p * 100))
          * 0.95).
Proof.
  intros Hm. split; [|split].
  - intros f. now apply update_deformation_stress.
  - intros dt t Hg. unfold update.
    rewrite handle_boundary_collisions_stress.
    rewrite (ground_collision_miss _ Hg). simpl fst. apply integrate_shape.
  - intros dt t Hg. unfold update.
    rewrite handle_boundary_collisions_stress.
    destruct (integrate_body p dt) as (Ht & _ & Hmass & _).
    destruct (integrate_shape p dt) as (_ & Hs & _).
    rewrite <- Hs, <- Hmass. rewrite <- Ht in Hm.
    now apply ground_collision_stress.
Qed.

(** ** Collision counting *)

Lemma update_deformation_count p f :
  collision_count (update_deformation p f) = collision_count p.
Proof. unfold update_deformation. repeat break_if; reflexivity. Qed.

Lemma ground_collision_count p :
  collision_count (fst (ground_collision p)) = collision_count p.
Proof.
  unfold ground_collision. break_if; [|reflexivity]. simpl fst.
  break_if; now rewrite update_deformation_count.
Qed.

Lemma wall_collision_count p :
  collision_count (fst (wall_collision p)) = collision_count p.
Proof. unfold wall_collision. repeat break_if; reflexivity. Qed.

Lemma integrate_count p dt :
  collision_count (integrate p dt) = collision_count p.
Proof. unfold integrate, push_trail. break_if; reflexivity. Qed.

(** Whether some boundary test fires in [handle_boundary_collisions]: the
    ground test on the particle, or a wall test on what the ground block
    leaves. *)
Lemma handle_boundary_collisions_count p t :
  collision_count (handle_boundary_collisions p t)
  = (collision_count p
     + if touches_ground p || touches_wall (fst (ground_collision p))
       then 1 else 0)%Z.
Proof.
  unfold handle_boundary_collisions.
  rewrite <- ground_collision_hit, <- wall_collision_hit.
  pose proof (ground_collision_count p) as Hg.
  destruct (ground_collision p) as [p1 g]; simpl in *.
  pose proof (wall_collision_count p1) as Hw.
  destruct (wall_collision p1) as [p2 w]; simpl in *.
  destruct (g || w); cbn; lia.
Qed.

(** C6: a step raises [collision_count] by exactly 1 when some boundary
    test fired on the integrated particle, also when the ground test and a
    wall test both fired, and leaves it unchanged otherwise; it never
    lowers it.  [ExplosionSystem.update] does this to every particle it
    keeps. *)
Theorem collision_count_increments_once
    (math_sqrt : Q -> Q) (p : DebrisParticle) (dt : Q) (t : Z) :
  let q := integrate p dt in
  collision_count (update p dt t)
  = (collision_count p + if boundary_hit q then 1 else 0)%Z
  /\ (touches_ground q = true ->
      touches_wall (fst (ground_collision q)) = true ->
      collision_count (update p dt t) = (collision_count p + 1)%Z)
  /\ (boundary_hit q = false ->
      collision_count (update p dt t) = collision_count p)
  /\ (collision_count p <= collision_count (update p dt t))%Z
  /\ (forall sys,
        map collision_count
          (particles (ExplosionSystem_update math_sqrt sys dt t))
        = map (fun p0 =>
                 (collision_count p0
                  + if boundary_hit (integrate p0 dt) then 1 else 0)%Z)
              (filter (is_particle_active math_sqrt) (particles sys))).
Proof.
  intros q.
  assert (Hstep : forall p0,
             collision_count (update p0 dt t)
             = (collision_count p0
                + if boundary_hit (integrate p0 dt) then 1 else 0)%Z).
  { intros p0. unfold update, boundary_hit.
    now rewrite handle_boundary_collisions_count, integrate_count. }
  repeat split.
  - apply Hstep.
  - intros Hg Hw. rewrite Hstep. unfold boundary_hit. fold q.
    now rewrite Hg, Hw.
  - intros Hno. rewrite Hstep. fold q. rewrite Hno. lia.
  - rewrite Hstep. destruct (boundary_hit (integrate p dt)); lia.
  - intros sys. unfold ExplosionSystem_update. cbn [particles].
    rewrite map_map. apply map_ext. exact Hstep.
Qed.

(** ** Boundary collisions do not speed a particle up *)

Lemma Qabs_shrink (a k : Q) : 0 <= k <= 1 -> Qabs (a * k) <= Qabs a.
Proof.
  intros Hk. rewrite Qabs_Qmult, (Qabs_pos k) by lra.
  pose proof (Qabs_nonneg a). nra.
Qed.

Lemma Qabs_shrink_opp (a k : Q) : 0 <= k <= 1 -> Qabs (- a * k) <= Qabs a.
Proof.
  intros Hk. rewrite <- (Qabs_opp a). now apply Qabs_shrink.
Qed.

Lemma material_multipliers (mt : MaterialType) :
  0 <= elasticity (MATERIALS mt) <= 1
  /\ 0 <= elasticity (MATERIALS mt) * damping (MATERIALS mt) <= 1
  /\ 0 <= FRICTION <= 1
  /\ 0 <= FRICTION * 0.8 <= 1.
Proof.
  unfold FRICTION. destruct mt; cbn; lra.
Qed.

Lemma ground_collision_slows p :
  material p = MATERIALS (material_type p) ->
  Qabs (X (velocity (fst (ground_collision p)))) <= Qabs (X (velocity p))
  /\ Qabs (Y (velocity (fst (ground_collision p)))) <= Qabs (Y (velocity p)).
Proof.
  intros Hmat.
  destruct (material_multipliers (material_type p)) as (He & Hed & Hf & Hf8).
  rewrite <- Hmat in He, Hed.
  destruct (touches_ground p) eqn:Hg.
  - destruct (ground_collision_motion p Hg) as [-> _].
    unfold ground_response. break_if; cbn [X Y]; split.
    + now apply Qabs_shrink.
    + now apply Qabs_shrink_opp.
    + now apply Qabs_shrink.
    + rewrite <- Qmult_assoc. now apply Qabs_shrink_opp.
  - rewrite (ground_collision_miss p Hg). simpl fst. split; lra.
Qed.

Lemma wall_collision_slows p :
  material p = MATERIALS (material_type p) ->
  Qabs (X (velocity (fst (wall_collision p)))) <= Qabs (X (velocity p))
  /\ Qabs (Y (velocity (fst (wall_collision p)))) <= Qabs (Y (velocity p)).
Proof.
  intros Hmat.
  destruct (material_multipliers (material_type p)) as (He & _).
  rewrite <- Hmat in He.
  destruct (wall_collision_vertical p) as [_ ->].
  rewrite wall_collision_horizontal. split; [|lra].
  break_if; [now apply Qabs_shrink_opp | lra].
Qed.

Lemma DebrisParticle_init_fields (math_pi : Q) pos vel sz mt g :
  let p := fst (DebrisParticle_init math_pi pos vel sz mt g) in
  position p = pos /\ velocity p = vel /\ size p = sz
  /\ original_size p = sz
  /\ mass p = sz ^ 2 * density (MATERIALS mt) / 1000
  /\ material_type p = mt /\ material p = MATERIALS mt
  /\ deformation p = 0 /\ stress p = 0
  /\ collision_count p = 0%Z /\ last_collision_time p = 0%Z.
Proof.
  unfold DebrisParticle_init, uniform.
  destruct (random g) as [u g1]; destruct (random g1) as [v g2].
  cbn. repeat split.
Qed.

(** Every particle the program can produce carries its kind's entry of
    [MATERIALS]. *)
Lemma reachable_material (math_pi : Q) p :
  reachable math_pi p -> material p = MATERIALS (material_type p).
Proof.
  induction 1 as [pos vel sz mt g | p f _ IH | p f _ IH | p t _ IH
                 | p dt t _ IH].
  - destruct (DebrisParticle_init_fields math_pi pos vel sz mt g)
      as (_ & _ & _ & _ & _ & Ht & Hm & _).
    now rewrite Hm, Ht.
  - exact IH.
  - destruct (update_deformation_body p f) as (Ht & Hm & _).
    now rewrite Hm, Ht.
  - destruct (handle_boundary_collisions_body p t) as (Ht & Hm & _).
    now rewrite Hm, Ht.
  - destruct (update_body p dt t) as (Ht & Hm & _).
    now rewrite Hm, Ht.
Qed.

(** C10: for a particle whose material record is its kind's entry of
    [MATERIALS] (as for every particle the program can produce),
    [handle_boundary_collisions] raises the magnitude of
    neither velocity component; every multiplier it may apply lies in
    [[0, 1]] for each of the three materials. *)
Theorem boundary_collisions_never_speed_up (p : DebrisParticle) (t : Z) :
  material p = MATERIALS (material_type p) ->
  (Qabs (X (velocity (handle_boundary_collisions p t)))
   <= Qabs (X (velocity p))
   /\ Qabs (Y (velocity (handle_boundary_collisions p t)))
      <= Qabs (Y (velocity p)))
  /\ (forall mt,
        0 <= elasticity (MATERIALS mt) <= 1
        /\ 0 <= elasticity (MATERIALS mt) * damping (MATERIALS mt) <= 1
        /\ 0 <= FRICTION <= 1
        /\ 0 <= FRICTION * 0.8 <= 1).
Proof.
  intros Hmat. split; [|exact material_multipliers].
  destruct (handle_boundary_collisions_motion p t) as [-> _].
  destruct (ground_collision_slows p Hmat) as [Hgx Hgy].
  destruct (ground_collision_body p) as (Ht & Hm & _).
  assert (Hmat1 : material (fst (ground_collision p))
                  = MATERIALS (material_type (fst (ground_collision p))))
    by (now rewrite Hm, Ht).
  destruct (wall_collision_slows _ Hmat1) as [Hwx Hwy].
  split; lra.
Qed.

(** ** Culling *)

(** C7: a particle at [x = -150] is inactive when its speed is 20 and
    active when its speed is 60 (the settled test cannot hold at speed 60,
    so nothing need be assumed about it). *)
Theorem is_particle_active_beyond_left_margin
    (math_sqrt : Q -> Q) (p : DebrisParticle) :
  X (position p) == -150 ->
  (magnitude math_sqrt (velocity p) == 20 ->
   is_particle_active math_sqrt p = false)
  /\ (magnitude math_sqrt (velocity p) == 60 ->
      is_particle_active math_sqrt p = true).
Proof.
  intros Hx.
  assert (Hleft : Qltb (X (position p)) (-100) = true)
    by (apply Qltb_true; rewrite Hx; reflexivity).
  unfold is_particle_active. rewrite Hleft. cbn [orb].
  split; intros Hspeed.
  - assert (H50 : Qltb (magnitude math_sqrt (velocity p)) 50 = true)
      by (apply Qltb_true; rewrite Hspeed; reflexivity).
    now rewrite H50.
  - assert (H50 : Qltb (magnitude math_sqrt (velocity p)) 50 = false)
      by (apply Qltb_false; rewrite Hspeed; discriminate).
    assert (H10 : Qltb (magnitude math_sqrt (velocity p)) 10 = false)
      by (apply Qltb_false; rewrite Hspeed; discriminate).
    now rewrite H50, H10.
Qed.

(** ** Explosions *)


Lemma spawn_particles_spec (math_cos math_sin : Q -> Q) (math_pi : Q)
    n pos force mt :
  forall ps g,
  exists added,
    fst (spawn_particles math_cos math_sin math_pi n pos force mt ps g)
    = ps ++ added
    /\ length added = n
    /\ Forall (spawned mt) added.
Proof.
  induction n as [|n IH]; intros ps g.
  - exists []. cbn. rewrite app_nil_r. auto.
  - cbn [spawn_particles].
    destruct (uniform 0 (2 * math_pi) g) as [a g1].
    destruct (uniform (force * 0.3) force g1) as [speed g2].
    destruct (uniform 0 200 g2) as [bias g3].
    destruct (uniform 0 30 g3) as [off g4].
    pose proof (uniform_range 3 15 g4) as Hsize.
    destruct (uniform 3 15 g4) as [sz g5]. simpl fst in Hsize.
    match goal with
    | |- context [DebrisParticle_init _ ?a ?b ?c ?d ?e] =>
        pose proof (DebrisParticle_init_fields math_pi a b c d e) as Hf;
        destruct (DebrisParticle_init math_pi a b c d e) as [particle g6]
    end.
    simpl fst in Hf.
    destruct Hf as (_ & _ & Hsz & Ho & Hmass & Hmt & Hmat & _).
    destruct (IH (ps ++ [particle]) g6) as (added & Heq & Hlen & Hall).
    exists (particle :: added). rewrite Heq, <- app_assoc. cbn.
    repeat split; auto.
    constructor; [|exact Hall].
    unfold spawned. rewrite Hsz, Ho. repeat split; auto; apply Hsize; lra.
Qed.

Lemma create_explosion_spec (math_cos math_sin : Q -> Q) (math_pi : Q)
    sys pos force count mt g ticks :
  let sys' :=
    fst (create_explosion math_cos math_sin math_pi sys pos force count mt g
           ticks) in
  exists added,
    particles sys'
    = particles sys ++ added
    /\ length added = Z.to_nat count
    /\ Forall (spawned mt) added
    /\ explosions sys'
       = explosions sys ++ [mkExplosion pos ticks 500].
Proof.
  unfold create_explosion.
  destruct (spawn_particles_spec math_cos math_sin math_pi (Z.to_nat count)
              pos force mt (particles sys) g)
    as (added & Heq & Hlen & Hall).
  destruct (spawn_particles _ _ _ _ _ _) as [ps g']. simpl fst in Heq.
  exists added. cbn. auto.
Qed.

(** C8: [create_explosion] appends exactly [particle_count] particles
    (none when the count is negative) and exactly one marker; every added
    particle has the requested material and a size in [[3, 15]].  With
    force 300, count 20 and SemiRigid it adds 20 SemiRigid particles and
    one marker. *)
Theorem create_explosion_adds_particles_and_one_marker
    (math_cos math_sin : Q -> Q) (math_pi : Q) :
  (forall sys pos force count mt g ticks,
     let sys' :=
       fst (create_explosion math_cos math_sin math_pi sys pos force count
              mt g ticks) in
     exists added,
       particles sys' = particles sys ++ added
       /\ Z.of_nat (length added) = Z.max 0 count
       /\ Forall (fun p => material_type p = mt /\ 3 <= size p <= 15) added
       /\ explosions sys' = explosions sys ++ [mkExplosion pos ticks 500])
  /\ (forall sys pos g ticks,
        let sys' :=
          fst (create_explosion math_cos math_sin math_pi sys pos 300 20
                 SEMI_RIGID g ticks) in
        length (particles sys') = (length (particles sys) + 20)%nat
        /\ length (explosions sys') = (length (explosions sys) + 1)%nat
        /\ Forall (fun p => material_type p = SEMI_RIGID /\ 3 <= size p <= 15)
             (skipn (length (particles sys)) (particles sys'))).
Proof.
  split.
  - intros sys pos force count mt g ticks sys'. subst sys'.
    destruct (create_explosion_spec math_cos math_sin math_pi sys pos force
                count mt g ticks)
      as (added & Hp & Hlen & Hall & He).
    exists added. repeat split; auto.
    + rewrite Hlen. lia.
    + eapply Forall_impl; [|exact Hall]. unfold spawned. tauto.
  - intros sys pos g ticks sys'. subst sys'.
    destruct (create_explosion_spec math_cos math_sin math_pi sys pos 300 20
                SEMI_RIGID g ticks)
      as (added & Hp & Hlen & Hall & He).
    rewrite Hp, He, !length_app, Hlen. cbn [length].
    repeat split; try lia.
    rewrite skipn_app, skipn_all, Nat.sub_diag. cbn.
    eapply Forall_impl; [|exact Hall]. unfold spawned. tauto.
Qed.

(** ** Construction *)

(** C5, as the code has it: [__init__] does not check the size.  For a
    size in [[3, 15]], the range [create_explosion] draws from, it stores
    the size and the mass [size^2 * density / 1000], which is positive; so
    every particle [create_explosion] adds has a positive mass.  A size of
    0 is not rejected: it gives a particle of mass 0. *)
Theorem constructed_mass_positive_for_spawn_sizes
    (math_cos math_sin : Q -> Q) (math_pi : Q)
    (pos vel : Vec2) (sz : Q) (mt : MaterialType) (g : rng) :
  let p := fst (DebrisParticle_init math_pi pos vel sz mt g) in
  (3 <= sz <= 15 ->
   size p = sz
   /\ mass p = sz ^ 2 * density (MATERIALS mt) / 1000
   /\ 0 < mass p)
  /\ (sz == 0 -> mass p == 0)
  /\ (forall sys centre force count ticks,
        Forall (fun q => 0 < mass q)
          (skipn (length (particles sys))
             (particles
                (fst (create_explosion math_cos math_sin math_pi sys centre
                        force count mt g ticks))))).
Proof.
  intros p.
  destruct (DebrisParticle_init_fields math_pi pos vel sz mt g)
    as (_ & _ & Hsz & _ & Hmass & _).
  fold p in Hsz, Hmass.
  assert (Hd : 0 < density (MATERIALS mt)) by (destruct mt; reflexivity).
  assert (Hpos : forall s d, 3 <= s <= 15 -> 0 < d -> 0 < s ^ 2 * d / 1000).
  { intros s d Hs Hdd. apply Qlt_shift_div_l; [reflexivity|].
    rewrite Qmult_0_l.
    assert (E : s ^ 2 == s * s) by (simpl; ring). rewrite E.
    assert (0 < s * s) by nra. nra. }
  split; [|split].
  - intros H. split; [exact Hsz|]. split; [exact Hmass|].
    rewrite Hmass. now apply Hpos.
  - intros H. rewrite Hmass, H. reflexivity.
  - intros sys centre force count ticks.
    destruct (create_explosion_spec math_cos math_sin math_pi sys centre
                force count mt g ticks)
      as (added & -> & _ & Hall & _).
    rewrite skipn_app, skipn_all, Nat.sub_diag. cbn.
    eapply Forall_impl; [|exact Hall].
    intros q (_ & _ & Hq & _ & Hm). rewrite Hm.
    apply Hpos; [exact Hq | exact Hd].
Qed.

(** ** The clock does not steer the particles *)

Ltac same_but_time p q H :=
  destruct p, q; unfold kinematics, set_last_collision_time in H;
  cbn in H; inversion H; subst; clear H.

Lemma is_particle_active_blind (math_sqrt : Q -> Q) p q :
  kinematics p = kinematics q ->
  is_particle_active math_sqrt p = is_particle_active math_sqrt q.
Proof.
  intros H. same_but_time p q H. reflexivity.
Qed.

Lemma integrate_blind p q dt :
  kinematics p = kinematics q ->
  kinematics (integrate p dt) = kinematics (integrate q dt).
Proof.
  intros H. same_but_time p q H.
  unfold integrate, push_trail; cbn. break_if; reflexivity.
Qed.

Lemma update_deformation_blind p q f :
  kinematics p = kinematics q ->
  kinematics (update_deformation p f) = kinematics (update_deformation q f).
Proof.
  intros H. same_but_time p q H.
  unfold update_deformation; cbn. repeat break_if; reflexivity.
Qed.

Lemma ground_collision_blind p q :
  kinematics p = kinematics q ->
  kinematics (fst (ground_collision p)) = kinematics (fst (ground_collision q))
  /\ snd (ground_collision p) = snd (ground_collision q).
Proof.
  intros H. unfold ground_collision.
  assert (Hc : Qgtb (Y (position p) + size p) GROUND_Y
               = Qgtb (Y (position q) + size q) GROUND_Y)
    by (same_but_time p q H; reflexivity).
  rewrite Hc. break_if; simpl; [|auto]. split; [|reflexivity].
  assert (Hk : MaterialType_eqb (material_type p) RIGID
               = MaterialType_eqb (material_type q) RIGID)
    by (same_but_time p q H; reflexivity).
  assert (Hf : Qabs (Y (velocity p)) * mass p
               = Qabs (Y (velocity q)) * mass q)
    by (same_but_time p q H; reflexivity).
  rewrite Hk, Hf.
  break_if; apply update_deformation_blind;
    same_but_time p q H; reflexivity.
Qed.

Lemma wall_collision_blind p q :
  kinematics p = kinematics q ->
  kinematics (fst (wall_collision p)) = kinematics (fst (wall_collision q))
  /\ snd (wall_collision p) = snd (wall_collision q).
Proof.
  intros H. same_but_time p q H.
  unfold wall_collision; cbn. repeat break_if; split; reflexivity.
Qed.

Lemma handle_boundary_collisions_blind p q t1 t2 :
  kinematics p = kinematics q ->
  kinematics (handle_boundary_collisions p t1)
  = kinematics (handle_boundary_collisions q t2).
Proof.
  intros H. unfold handle_boundary_collisions.
  destruct (ground_collision_blind p q H) as [Hg Hgb].
  destruct (ground_collision p) as [p1 g1], (ground_collision q) as [q1 g2].
  simpl in Hg, Hgb. subst g2.
  destruct (wall_collision_blind p1 q1 Hg) as [Hw Hwb].
  destruct (wall_collision p1) as [p2 w1], (wall_collision q1) as [q2 w2].
  simpl in Hw, Hwb. subst w2.
  break_if; [|exact Hw].
  same_but_time p2 q2 Hw. reflexivity.
Qed.

Lemma update_blind p q dt t1 t2 :
  kinematics p = kinematics q ->
  kinematics (update p dt t1) = kinematics (update q dt t2).
Proof.
  intros H. unfold update.
  apply handle_boundary_collisions_blind, integrate_blind, H.
Qed.

Lemma cons_inj {A : Type} (a b : A) (l m : list A) :
  a :: l = b :: m -> a = b /\ l = m.
Proof. intros H. now inversion H. Qed.

Lemma ExplosionSystem_update_blind (math_sqrt : Q -> Q) s1 s2 dt t1 t2 :
  map kinematics (particles s1) = map kinematics (particles s2) ->
  map kinematics (particles (ExplosionSystem_update math_sqrt s1 dt t1))
  = map kinematics (particles (ExplosionSystem_update math_sqrt s2 dt t2)).
Proof.
  unfold ExplosionSystem_update. cbn [particles].
  generalize (particles s2) as qs. induction (particles s1) as [|p ps IH];
    intros [|q qs] H; try discriminate; [reflexivity|].
  cbn [map] in H. apply cons_inj in H as [Hpq Hrest]. cbn [filter].
  rewrite (is_particle_active_blind math_sqrt p q Hpq).
  break_if; cbn [map]; [f_equal|]; auto using update_blind.
Qed.

Lemma simulate_blind (math_sqrt : Q -> Q) dts :
  forall c1 c2 k1 k2 s1 s2,
    map kinematics (particles s1) = map kinematics (particles s2) ->
    map (fun s => map kinematics (particles s))
      (simulate math_sqrt c1 k1 s1 dts)
    = map (fun s => map kinematics (particles s))
        (simulate math_sqrt c2 k2 s2 dts).
Proof.
  induction dts as [|dt dts IH]; intros c1 c2 k1 k2 s1 s2 H; [reflexivity|].
  cbn [simulate map].
  pose proof (ExplosionSystem_update_blind math_sqrt s1 s2 dt (c1 k1) (c2 k2)
                H) as Hs.
  f_equal; [exact Hs | now apply IH].
Qed.

(** C9: [ExplosionSystem.update] draws nothing from the random source,
    and the clock it reads reaches only [last_collision_time] and the
    markers: two runs over the same particles and the same [dt] sequence,
    under any two clocks and with any markers, agree after every step on
    every other field of every particle. *)
Theorem simulation_trajectories_deterministic (math_sqrt : Q -> Q)
    (clock1 clock2 : nat -> Z) (ps : list DebrisParticle)
    (markers1 markers2 : list Explosion) (dts : list Q) :
  map (fun s => map kinematics (particles s))
    (simulate math_sqrt clock1 0 (mkSystem ps markers1) dts)
  = map (fun s => map kinematics (particles s))
      (simulate math_sqrt clock2 0 (mkSystem ps markers2) dts).
Proof.
  apply simulate_blind. reflexivity.
Qed.

(** * Further properties *)

(** ** No penetration remains after the boundary collisions *)

Lemma update_deformation_shrinks p f :
  deformation_inv p -> 0 <= original_size p ->
  0 <= size (update_deformation p f) <= size p.
Proof.
  intros Hinv Ho.
  destruct (update_deformation_inv p f Hinv) as [[Hs [_ Hhi]] Hm].
  destruct (update_deformation_body p f) as (_ & _ & _ & Hos).
  destruct Hinv as [Hs0 _]. rewrite Hos in Hs.
  rewrite Hs, Hs0. split; nra.
Qed.

Lemma ground_collision_size p :
  deformation_inv p -> 0 <= original_size p ->
  0 <= size (fst (ground_collision p)) <= size p.
Proof.
  intros Hinv Ho. unfold ground_collision. break_if; simpl fst.
  - break_if;
      match goal with
      | |- context [update_deformation ?q ?f] =>
          exact (update_deformation_shrinks q f Hinv Ho)
      end.
  - destruct Hinv as [Hs [Hlo Hhi]]. rewrite Hs. split; nra.
Qed.

Lemma wall_collision_position p :
  X (position (fst (wall_collision p)))
  = if Qltb (X (position p) - size p) 0 then size p
    else if Qgtb (X (position p) + size p) SCREEN_WIDTH
         then SCREEN_WIDTH - size p
         else X (position p).
Proof.
  unfold wall_collision. repeat break_if; reflexivity.
Qed.

Lemma handle_boundary_collisions_size p t :
  size (handle_boundary_collisions p t) = size (fst (ground_collision p)).
Proof.
  unfold handle_boundary_collisions.
  destruct (ground_collision p) as [p1 g]; simpl fst.
  destruct (wall_collision_shape p1) as (_ & _ & Hs).
  destruct (wall_collision p1) as [p2 w]; simpl in Hs.
  break_if; cbn; exact Hs.
Qed.

Lemma ground_collision_height p :
  Y (position (fst (ground_collision p)))
  = if touches_ground p then GROUND_Y - size p else Y (position p).
Proof.
  destruct (touches_ground p) eqn:Hg.
  - destruct (ground_collision_motion p Hg) as [_ ->]. reflexivity.
  - now rewrite (ground_collision_miss p Hg).
Qed.

Lemma ground_collision_abscissa p :
  X (position (fst (ground_collision p))) = X (position p).
Proof.
  destruct (touches_ground p) eqn:Hg.
  - destruct (ground_collision_motion p Hg) as [_ ->]. reflexivity.
  - now rewrite (ground_collision_miss p Hg).
Qed.

Lemma inside_box_after_boundary_collisions p t :
  deformation_inv p ->
  0 <= original_size p ->
  2 * size p <= SCREEN_WIDTH ->
  inside_box (handle_boundary_collisions p t)
  /\ (forall dt, inside_box (update p dt t)).
Proof.
  assert (Hbox : forall q,
            deformation_inv q -> 0 <= original_size q ->
            2 * size q <= SCREEN_WIDTH ->
            inside_box (handle_boundary_collisions q t)).
  { intros q Hinv Ho Hfit. unfold inside_box.
    destruct (handle_boundary_collisions_motion q t) as [_ ->].
    rewrite handle_boundary_collisions_size.
    destruct (ground_collision_size q Hinv Ho) as [Hs0 Hs1].
    pose proof (ground_collision_height q) as Hy.
    pose proof (ground_collision_abscissa q) as Hx.
    destruct (wall_collision_vertical (fst (ground_collision q))) as [-> _].
    rewrite wall_collision_position.
    set (q1 := fst (ground_collision q)) in *.
    rewrite Hy. split.
    - unfold touches_ground, Qgtb. case_Qltb GROUND_Y (Y (position q) + size q);
        lra.
    - unfold Qgtb.
      case_Qltb (X (position q1) - size q1) 0;
        [|case_Qltb SCREEN_WIDTH (X (position q1) + size q1)]; lra. }
  intros Hinv Ho Hfit. split; [now apply Hbox|].
  intros dt. unfold update.
  destruct (integrate_shape p dt) as (Hd & _ & Hs).
  destruct (integrate_body p dt) as (_ & _ & _ & Hos).
  apply Hbox.
  - unfold deformation_inv in *. now rewrite Hd, Hs, Hos.
  - now rewrite Hos.
  - now rewrite Hs.
Qed.

(** X1: after [handle_boundary_collisions], and so after every step, a
    particle whose deformation invariant holds and whose diameter fits
    between the walls lies inside the box: on or above the ground and
    between the two walls. *)
Theorem boundary_collisions_leave_particle_inside_box
    (p : DebrisParticle) (t : Z) :
  deformation_inv p ->
  0 <= original_size p ->
  2 * size p <= SCREEN_WIDTH ->
  inside_box (handle_boundary_collisions p t)
  /\ (forall dt, inside_box (update p dt t)).
Proof.
  apply inside_box_after_boundary_collisions.
Qed.

(** ** The wall response *)

(** X2: when the ground test does not fire, a particle past the left wall
    is put at [x = size], one past the right wall at
    [x = SCREEN_WIDTH - size]; in both cases [velocity.x] becomes
    [-velocity.x * elasticity], the vertical components are untouched and
    the collision is counted and stamped with the clock reading. *)
Theorem wall_contact_response (p : DebrisParticle) (t : Z) :
  touches_ground p = false ->
  X (position p) - size p < 0
  \/ (0 <= X (position p) - size p
      /\ SCREEN_WIDTH < X (position p) + size p) ->
  let p' := handle_boundary_collisions p t in
  X (position p')
  = (if Qltb (X (position p) - size p) 0 then size p
     else SCREEN_WIDTH - size p)
  /\ X (velocity p') = - X (velocity p) * elasticity (material p)
  /\ Y (position p') = Y (position p)
  /\ Y (velocity p') = Y (velocity p)
  /\ collision_count p' = (collision_count p + 1)%Z
  /\ last_collision_time p' = t.
Proof.
  intros Hg Hwall p'. subst p'.
  assert (Htw : touches_wall p = true).
  { unfold touches_wall, Qgtb. destruct Hwall as [H | [_ H]].
    - apply (proj2 (Qltb_true _ _)) in H. now rewrite H.
    - apply (proj2 (Qltb_true _ _)) in H. rewrite H. apply orb_true_r. }
  unfold handle_boundary_collisions.
  rewrite (ground_collision_miss p Hg).
  pose proof (wall_collision_position p) as Hx.
  pose proof (wall_collision_horizontal p) as Hv.
  destruct (wall_collision_vertical p) as [Hy Hvy].
  pose proof (wall_collision_count p) as Hc.
  pose proof (wall_collision_hit p) as Hh.
  rewrite Htw in Hv, Hh.
  destruct (wall_collision p) as [p2 w]. simpl in *. subst w. cbn.
  rewrite Hx, Hv, Hy, Hvy, Hc.
  assert (Hsel : (if Qltb (X (position p) - size p) 0 then size p
                  else if Qgtb (X (position p) + size p) SCREEN_WIDTH
                       then SCREEN_WIDTH - size p else X (position p))
                 = (if Qltb (X (position p) - size p) 0 then size p
                    else SCREEN_WIDTH - size p)).
  { destruct (Qltb (X (position p) - size p) 0) eqn:Hl; [reflexivity|].
    unfold touches_wall in Htw. rewrite Hl in Htw. cbn in Htw.
    now rewrite Htw. }
  rewrite Hsel. repeat split.
Qed.

(** ** The trail *)

Lemma update_deformation_trail p f :
  trail (update_deformation p f) = trail p
  /\ max_trail_length (update_deformation p f) = max_trail_length p.
Proof. unfold update_deformation. repeat break_if; split; reflexivity. Qed.

Lemma handle_boundary_collisions_trail p t :
  trail (handle_boundary_collisions p t) = trail p
  /\ max_trail_length (handle_boundary_collisions p t) = max_trail_length p.
Proof.
  unfold handle_boundary_collisions.
  assert (Hg : trail (fst (ground_collision p)) = trail p
               /\ max_trail_length (fst (ground_collision p))
                  = max_trail_length p).
  { unfold ground_collision. break_if; [|split; reflexivity]. simpl fst.
    break_if;
      match goal with
      | |- context [update_deformation ?q ?f] =>
          exact (update_deformation_trail q f)
      end. }
  destruct (ground_collision p) as [p1 g]; simpl in Hg.
  assert (Hw : trail (fst (wall_collision p1)) = trail p1
               /\ max_trail_length (fst (wall_collision p1))
                  = max_trail_length p1).
  { unfold wall_collision. repeat break_if; split; reflexivity. }
  destruct (wall_collision p1) as [p2 w]; simpl in Hw.
  destruct Hg as [Hg1 Hg2], Hw as [Hw1 Hw2].
  break_if; cbn; rewrite Hw1, Hw2; auto.
Qed.

Lemma integrate_position p dt :
  position (integrate p dt)
  = vadd (position p) (vscale (velocity (integrate p dt)) dt).
Proof. unfold integrate, push_trail. break_if; reflexivity. Qed.

Lemma integrate_trail p dt :
  max_trail_length (integrate p dt) = max_trail_length p
  /\ trail (integrate p dt)
     = if Nat.ltb (max_trail_length p) (S (length (trail p)))
       then tl (trail p ++ [position (integrate p dt)])
       else trail p ++ [position (integrate p dt)].
Proof.
  rewrite integrate_position.
  unfold integrate, push_trail. cbn.
  rewrite length_app, Nat.add_1_r. break_if; split; reflexivity.
Qed.

Lemma update_trail p dt t :
  max_trail_length (update p dt t) = max_trail_length p
  /\ trail (update p dt t)
     = if Nat.ltb (max_trail_length p) (S (length (trail p)))
       then tl (trail p ++ [position (integrate p dt)])
       else trail p ++ [position (integrate p dt)].
Proof.
  unfold update.
  destruct (handle_boundary_collisions_trail (integrate p dt) t) as [-> ->].
  apply integrate_trail.
Qed.

Lemma queue_push_bounded {A : Type} (l : list A) (x : A) :
  (length l <= 10)%nat ->
  let l' := if Nat.ltb 10 (S (length l)) then tl (l ++ [x]) else l ++ [x] in
  (length l' <= 10)%nat
  /\ l' = (if Nat.ltb (length l) 10 then l else tl l) ++ [x].
Proof.
  intros Hl l'. subst l'.
  destruct (Nat.ltb_spec 10 (S (length l))) as [Hfull | Hroom];
    destruct (Nat.ltb_spec (length l) 10) as [Hlt | Hge]; try lia.
  - destruct l as [|a l]; cbn in *; [lia|].
    rewrite length_app. cbn. split; [lia | reflexivity].
  - rewrite length_app. cbn. split; [lia | reflexivity].
Qed.

Lemma reachable_trail_bound (math_pi : Q) p :
  reachable math_pi p ->
  max_trail_length p = 10%nat /\ (length (trail p) <= 10)%nat.
Proof.
  induction 1 as [pos vel sz mt g | p f _ IH | p f _ IH | p t _ IH
                 | p dt t _ IH].
  - unfold DebrisParticle_init, uniform.
    destruct (random g) as [u g1]; destruct (random g1) as [v g2].
    cbn. split; [reflexivity | lia].
  - exact IH.
  - destruct (update_deformation_trail p f) as [-> ->]. exact IH.
  - destruct (handle_boundary_collisions_trail p t) as [-> ->]. exact IH.
  - destruct (update_trail p dt t) as [-> ->]. destruct IH as [Hm Hl].
    split; [exact Hm|]. rewrite Hm.
    apply (queue_push_bounded _ _ Hl).
Qed.

(** X3: the trail is a queue of at most 10 positions: in every state the
    program can produce it holds at most 10 entries, and a step appends
    the position reached by the integration (before any clamping by the
    boundary collisions), dropping the oldest entry when 10 are held. *)
Theorem trail_is_bounded_queue (math_pi : Q) (p : DebrisParticle) :
  reachable math_pi p ->
  (length (trail p) <= 10)%nat
  /\ (forall dt t,
        trail (update p dt t)
        = (if Nat.ltb (length (trail p)) 10 then trail p else tl (trail p))
          ++ [position (integrate p dt)]).
Proof.
  intros Hreach.
  destruct (reachable_trail_bound math_pi p Hreach) as [Hm Hl].
  split; [exact Hl|]. intros dt t.
  destruct (update_trail p dt t) as [_ ->]. rewrite Hm.
  apply (queue_push_bounded _ _ Hl).
Qed.

(** ** Integration *)


(** ** The mass is fixed at construction *)

(** X5: in every state the program can produce, the mass is still
    [original_size^2 * density / 1000] for the density of the particle's
    own material: it follows the size given at construction, not the
    current size, and no step changes it. *)
Theorem mass_follows_original_size (math_pi : Q) (p : DebrisParticle) :
  reachable math_pi p ->
  mass p = original_size p ^ 2 * density (MATERIALS (material_type p)) / 1000
  /\ material p = MATERIALS (material_type p)
  /\ (forall dt t,
        mass (update p dt t) = mass p
        /\ original_size (update p dt t) = original_size p
        /\ material_type (update p dt t) = material_type p).
Proof.
  intros Hreach. split; [|split].
  - induction Hreach as [pos vel sz mt g | p f _ IH | p f _ IH | p t _ IH
                        | p dt t _ IH].
    + destruct (DebrisParticle_init_fields math_pi pos vel sz mt g)
        as (_ & _ & _ & Ho & Hmass & Ht & _).
      now rewrite Hmass, Ho, Ht.
    + exact IH.
    + destruct (update_deformation_body p f) as (Ht & _ & Hm & Ho).
      now rewrite Hm, Ho, Ht.
    + destruct (handle_boundary_collisions_body p t) as (Ht & _ & Hm & Ho).
      now rewrite Hm, Ho, Ht.
    + destruct (update_body p dt t) as (Ht & _ & Hm & Ho).
      now rewrite Hm, Ho, Ht.
  - now apply (reachable_material math_pi).
  - intros dt t. destruct (update_body p dt t) as (Ht & _ & Hm & Ho). auto.
Qed.

(** ** Stress during a simulation *)

Lemma simulated_reachable (math_pi : Q) p :
  simulated math_pi p -> reachable math_pi p.
Proof. induction 1; now constructor. Qed.

Lemma square_density_positive (s : Q) (mt : MaterialType) :
  3 <= s <= 15 -> 0 < s ^ 2 * density (MATERIALS mt) / 1000.
Proof.
  intros Hs.
  assert (Hd : 0 < density (MATERIALS mt)) by (destruct mt; reflexivity).
  apply Qlt_shift_div_l; [reflexivity|]. rewrite Qmult_0_l.
  assert (E : s ^ 2 == s * s) by (simpl; ring). rewrite E.
  assert (0 < s * s) by nra.
  nra.
Qed.

Lemma simulated_mass_positive (math_pi : Q) p :
  simulated math_pi p -> 0 < mass p.
Proof.
  induction 1 as [pos vel sz mt g Hsz | p f _ IH | p dt t _ IH].
  - destruct (DebrisParticle_init_fields math_pi pos vel sz mt g)
      as (_ & _ & _ & _ & -> & _).
    now apply square_density_positive.
  - exact IH.
  - destruct (update_body p dt t) as (_ & _ & -> & _). exact IH.
Qed.

Lemma ground_collision_stress_sign p :
  0 < mass p -> 0 <= stress p -> 0 <= stress (fst (ground_collision p)).
Proof.
  intros Hm Hs.
  destruct (touches_ground p) eqn:Hg;
    [|now rewrite (ground_collision_miss p Hg)].
  destruct (material_type p) eqn:Hk.
  1,3: destruct (ground_collision_shape p) as (_ & -> & _);
       [rewrite Hk; discriminate | exact Hs].
  rewrite (ground_collision_stress p Hg Hk).
  pose proof (Qabs_nonneg (Y (velocity p))) as Hv.
  assert (0 <= Qabs (Y (velocity p)) * mass p / (mass p * 100)).
  { apply Qle_shift_div_l; [lra|]. nra. }
  nra.
Qed.

(** X6: while a particle constructed with a size in [[3, 15]], the range
    [create_explosion] draws from, is simulated, its mass stays positive
    and its stress never becomes negative. *)
Theorem simulated_stress_nonnegative (math_pi : Q) (p : DebrisParticle) :
  simulated math_pi p -> 0 < mass p /\ 0 <= stress p.
Proof.
  intros Hsim. split; [now apply (simulated_mass_positive math_pi)|].
  induction Hsim as [pos vel sz mt g Hsz | p f Hsim IH | p dt t Hsim IH].
  - destruct (DebrisParticle_init_fields math_pi pos vel sz mt g)
      as (_ & _ & _ & _ & _ & _ & _ & _ & -> & _).
    lra.
  - exact IH.
  - unfold update. rewrite handle_boundary_collisions_stress.
    apply ground_collision_stress_sign.
    + destruct (integrate_body p dt) as (_ & _ & -> & _).
      now apply (simulated_mass_positive math_pi).
    + destruct (integrate_shape p dt) as (_ & -> & _). exact IH.
Qed.

(** ** Impacts too slow to deform *)





(** ** Culling *)

(** X8: [is_particle_active] keeps every particle that lies within the
    100-unit margins and has collided at most 5 times, however slow it is,
    and keeps every particle whose speed is at least 50, wherever it is. *)
Theorem culling_spares_visible_and_fast_particles
    (math_sqrt : Q -> Q) (p : DebrisParticle) :
  (-100 <= X (position p) <= SCREEN_WIDTH + 100 ->
   Y (position p) <= SCREEN_HEIGHT + 100 ->
   (collision_count p <= 5)%Z ->
   is_particle_active math_sqrt p = true)
  /\ (50 <= magnitude math_sqrt (velocity p) ->
      is_particle_active math_sqrt p = true).
Proof.
  split.
  - intros [Hl Hr] Hb Hc. unfold is_particle_active, Qgtb.
    apply Qltb_false in Hl, Hr, Hb. rewrite Hl, Hr, Hb. cbn [orb].
    assert (Hcount : (collision_count p >? 5)%Z = false) by lia.
    rewrite Hcount, andb_false_r. reflexivity.
  - intros Hfast. unfold is_particle_active.
    assert (H50 : Qltb (magnitude math_sqrt (velocity p)) 50 = false)
      by (now apply Qltb_false).
    assert (H10 : Qltb (magnitude math_sqrt (velocity p)) 10 = false)
      by (apply Qltb_false; lra).
    rewrite H50, H10. cbn [andb]. now break_if.
Qed.

(** ** The population under [ExplosionSystem.update] *)

Lemma filter_keeps_all {A : Type} (f : A -> bool) (l : list A) :
  length (filter f l) = length l <-> forallb f l = true.
Proof.
  induction l as [|a l IH]; cbn; [tauto|].
  pose proof (filter_length_le f l) as Hle.
  destruct (f a); cbn.
  - rewrite <- IH. split; intros H; lia.
  - split; [intros H; lia | discriminate].
Qed.

(** X9: [ExplosionSystem.update] never adds a particle: every particle it
    returns is the step of a particle that was active before the step, so
    the particle count does not grow, and it stays the same exactly when
    every particle was active. *)
Theorem update_never_adds_particles
    (math_sqrt : Q -> Q) (sys : ExplosionSystem) (dt : Q) (t : Z) :
  let sys' := ExplosionSystem_update math_sqrt sys dt t in
  (get_particle_count sys' <= get_particle_count sys)%Z
  /\ (get_particle_count sys' = get_particle_count sys
      <-> forallb (is_particle_active math_sqrt) (particles sys) = true)
  /\ (forall q, In q (particles sys') ->
        exists p, In p (particles sys)
                  /\ is_particle_active math_sqrt p = true
                  /\ q = update p dt t).
Proof.
  intros sys'. subst sys'.
  unfold get_particle_count, ExplosionSystem_update. cbn [particles].
  rewrite length_map.
  pose proof (filter_length_le (is_particle_active math_sqrt) (particles sys))
    as Hle.
  split; [lia|]. split.
  - rewrite <- filter_keeps_all. split; intros H; lia.
  - intros q Hq. apply in_map_iff in Hq as (p & <- & Hp).
    apply filter_In in Hp as [Hin Hact]. eauto.
Qed.

(** ** Explosion markers *)

(** X10: the marker of an explosion created at clock reading [t0] is
    still listed after an update at clock reading [t] exactly when
    [t - t0 < 500]; an update adds no marker and keeps only markers that
    have not run their time. *)
Theorem explosion_marker_lasts_500_ms
    (math_sqrt math_cos math_sin : Q -> Q) (math_pi : Q)
    (sys : ExplosionSystem) (pos : Vec2) (force : Q) (count : Z)
    (mt : MaterialType) (g : rng) (t0 : Z) (dt : Q) (t : Z) :
  let sys1 :=
    fst (create_explosion math_cos math_sin math_pi sys pos force count mt g
           t0) in
  let sys2 := ExplosionSystem_update math_sqrt sys1 dt t in
  (In (mkExplosion pos t0 500) (explosions sys2) <-> (t - t0 < 500)%Z)
  /\ (forall e, In e (explosions sys2) ->
        In e (explosions sys1) /\ (t - exp_time e < exp_duration e)%Z)
  /\ (length (explosions sys2) <= length (explosions sys) + 1)%nat.
Proof.
  intros sys1 sys2.
  destruct (create_explosion_spec math_cos math_sin math_pi sys pos force
              count mt g t0) as (added & _ & _ & _ & He).
  fold sys1 in He. subst sys2. unfold ExplosionSystem_update.
  cbn [explosions]. rewrite He. split; [|split].
  - rewrite filter_In, in_app_iff. cbn. rewrite Z.ltb_lt. intuition.
  - intros e He'. apply filter_In in He' as [Hin Hlt].
    now rewrite Z.ltb_lt in Hlt.
  - etransitivity; [apply filter_length_le|]. now rewrite length_app.
Qed.

(** ** What [create_explosion] hands to the constructor *)

Lemma uniform_rng (a b : Q) (g : rng) :
  snd (uniform a b g) = mkRng (raw g) (S (cursor g)).
Proof. reflexivity. Qed.

Lemma DebrisParticle_init_rng (math_pi : Q) pos vel sz mt g :
  snd (DebrisParticle_init math_pi pos vel sz mt g)
  = mkRng (raw g) (S (S (cursor g))).
Proof. reflexivity. Qed.

Lemma spawn_particles_added (math_cos math_sin : Q -> Q) (math_pi : Q)
    (P : DebrisParticle -> Prop) n pos force mt :
  (forall a speed bias off sz g',
     (force * 0.3 <= force -> force * 0.3 <= speed <= force) ->
     0 <= bias <= 200 -> 0 <= off <= 30 -> 3 <= sz <= 15 ->
     P (fst (DebrisParticle_init math_pi
               (vadd pos (vec2 (math_cos a * off) (math_sin a * off)))
               (vec2 (math_cos a * speed) (math_sin a * speed - bias))
               sz mt g'))) ->
  forall ps g,
  exists added,
    fst (spawn_particles math_cos math_sin math_pi n pos force mt ps g)
    = ps ++ added
    /\ length added = n
    /\ Forall P added
    /\ snd (spawn_particles math_cos math_sin math_pi n pos force mt ps g)
       = mkRng (raw g) (cursor g + 7 * n).
Proof.
  intros HP. induction n as [|n IH]; intros ps g.
  - exists []. cbn. rewrite app_nil_r, Nat.add_0_r. destruct g; auto.
  - cbn [spawn_particles].
    pose proof (uniform_rng 0 (2 * math_pi) g) as R1.
    destruct (uniform 0 (2 * math_pi) g) as [a g1]. simpl snd in R1.
    pose proof (fun H => uniform_range (force * 0.3) force g1 H) as Hspeed.
    pose proof (uniform_rng (force * 0.3) force g1) as R2.
    destruct (uniform (force * 0.3) force g1) as [speed g2].
    simpl fst in Hspeed. simpl snd in R2.
    pose proof (uniform_range 0 200 g2) as Hbias.
    pose proof (uniform_rng 0 200 g2) as R3.
    destruct (uniform 0 200 g2) as [bias g3].
    simpl fst in Hbias. simpl snd in R3.
    pose proof (uniform_range 0 30 g3) as Hoff.
    pose proof (uniform_rng 0 30 g3) as R4.
    destruct (uniform 0 30 g3) as [off g4].
    simpl fst in Hoff. simpl snd in R4.
    pose proof (uniform_range 3 15 g4) as Hsize.
    pose proof (uniform_rng 3 15 g4) as R5.
    destruct (uniform 3 15 g4) as [sz g5].
    simpl fst in Hsize. simpl snd in R5.
    specialize (HP a speed bias off sz g5 Hspeed).
    match goal with
    | |- context [DebrisParticle_init ?pi ?a ?b ?c ?d ?e] =>
        pose proof (DebrisParticle_init_rng pi a b c d e) as R6;
        destruct (DebrisParticle_init pi a b c d e) as [particle g6]
    end.
    simpl fst in HP. simpl snd in R6.
    destruct (IH (ps ++ [particle]) g6) as (added & Heq & Hlen & Hall & Hg).
    exists (particle :: added). rewrite Heq, <- app_assoc, Hg. cbn [app length].
    split; [reflexivity|]. split; [now rewrite Hlen|]. split.
    + constructor; [|exact Hall]. apply HP; [apply Hbias | apply Hoff
                                            | apply Hsize]; lra.
    + subst g6 g5 g4 g3 g2 g1. cbn [raw cursor]. f_equal. lia.
Qed.

Lemma DebrisParticle_init_pristine (math_pi : Q) pos vel sz mt g :
  pristine (fst (DebrisParticle_init math_pi pos vel sz mt g)).
Proof.
  unfold DebrisParticle_init.
  pose proof (uniform_range (-5) 5 g) as Hav.
  destruct (uniform (-5) 5 g) as [av g1]. simpl fst in Hav.
  destruct (uniform 0 (2 * math_pi) g1) as [an g2].
  unfold pristine. cbn.
  repeat split; try reflexivity; apply Hav; lra.
Qed.

(** X11: every particle [create_explosion] adds starts undeformed and
    unstressed, with no force, an empty trail, no collision on record, an
    angular velocity in [[-5, 5]] and a positive mass; and the call draws
    exactly seven random numbers per particle. *)
Theorem create_explosion_adds_pristine_particles
    (math_cos math_sin : Q -> Q) (math_pi : Q)
    (sys : ExplosionSystem) (pos : Vec2) (force : Q) (count : Z)
    (mt : MaterialType) (g : rng) (ticks : Z) :
  let result :=
    create_explosion math_cos math_sin math_pi sys pos force count mt g
      ticks in
  Forall (fun p => pristine p /\ 0 < mass p)
    (skipn (length (particles sys)) (particles (fst result)))
  /\ snd result = mkRng (raw g) (cursor g + 7 * Z.to_nat count).
Proof.
  intros result. subst result. unfold create_explosion.
  destruct (spawn_particles_added math_cos math_sin math_pi
              (fun p => pristine p /\ 0 < mass p)
              (Z.to_nat count) pos force mt) with (ps := particles sys)
                                                  (g := g)
    as (added & Heq & _ & Hall & Hg).
  { intros a speed bias off sz g' _ _ _ Hsz.
    split; [apply DebrisParticle_init_pristine|].
    destruct (DebrisParticle_init_fields math_pi
                (vadd pos (vec2 (math_cos a * off) (math_sin a * off)))
                (vec2 (math_cos a * speed) (math_sin a * speed - bias))
                sz mt g') as (_ & _ & _ & _ & -> & _).
    now apply square_density_positive. }
  destruct (spawn_particles _ _ _ _ _ _ _ _ _) as [ps g'].
  simpl in Heq, Hg. cbn [fst snd particles]. subst ps g'.
  rewrite skipn_app, skipn_all, Nat.sub_diag. cbn. auto.
Qed.

(** ** Normalising a vector *)

(** X13: [Vector2D.normalize] returns a vector of magnitude 0 unchanged
    instead of dividing by zero; a vector whose magnitude is not 0 and
    squares to the sum of the squared components is scaled to squared
    length 1. *)
Theorem normalize_gives_unit_vector (math_sqrt : Q -> Q) (vec : Vec2) :
  (magnitude math_sqrt vec == 0 -> normalize math_sqrt vec = vec)
  /\ (~ magnitude math_sqrt vec == 0 ->
      magnitude math_sqrt vec ^ 2 == X vec ^ 2 + Y vec ^ 2 ->
      X (normalize math_sqrt vec) ^ 2 + Y (normalize math_sqrt vec) ^ 2 == 1).
Proof.
  unfold normalize. split.
  - intros H0. apply Qeq_bool_iff in H0. now rewrite H0.
  - intros Hn Hsq.
    destruct (Qeq_bool (magnitude math_sqrt vec) 0) eqn:Hb;
      [apply Qeq_bool_iff in Hb; contradiction|].
    cbn [X Y vdiv]. set (m := magnitude math_sqrt vec) in *.
    assert (E : (X vec / m) ^ 2 + (Y vec / m) ^ 2
                == (X vec ^ 2 + Y vec ^ 2) / m ^ 2)
      by (simpl; field; exact Hn).
    rewrite E, <- Hsq. simpl. field. exact Hn.
Qed.

(** ** Healthy particles *)

Lemma healthy_init (math_pi : Q) pos vel sz mt g :
  3 <= sz <= 15 ->
  healthy (fst (DebrisParticle_init math_pi pos vel sz mt g)).
Proof.
  intros Hsz.
  destruct (DebrisParticle_init_pristine math_pi pos vel sz mt g)
    as (Hd & Hs & _ & Ht & Hmax & _ & _ & Ho & _).
  destruct (DebrisParticle_init_fields math_pi pos vel sz mt g)
    as (_ & _ & Hsize & _ & Hmass & Hk & Hmat & _).
  unfold healthy, deformation_inv.
  rewrite Hd, Hs, Ht, Hmax, Ho, Hsize, Hmass, Hmat, Hk. cbn [length].
  repeat split; try lra; try lia; try reflexivity; try ring.
  now apply square_density_positive.
Qed.

Lemma healthy_update p dt t : healthy p -> healthy (update p dt t).
Proof.
  intros (Hm & Hs & Hinv & Ho & Hmax & Hlen & Hmat).
  destruct (update_body p dt t) as (Hk' & Hmat' & Hm' & Ho').
  destruct (update_trail p dt t) as [Hmax' Htrail].
  unfold healthy. rewrite Hk', Hmat', Hm', Ho', Hmax', Htrail, Hmax.
  repeat split; try assumption; try apply Ho.
  - unfold update. rewrite handle_boundary_collisions_stress.
    apply ground_collision_stress_sign.
    + now destruct (integrate_body p dt) as (_ & _ & -> & _).
    + now destruct (integrate_shape p dt) as (_ & -> & _).
  - now apply update_inv.
  - now apply update_inv.
  - now apply update_inv.
  - apply (queue_push_bounded _ _ Hlen).
Qed.

Lemma healthy_size p : healthy p -> 2 <= size p <= 15.
Proof.
  intros (_ & _ & (Hs & Hd) & Ho & _). rewrite Hs. split; nra.
Qed.

Lemma ExplosionSystem_update_healthy (math_sqrt : Q -> Q) sys dt t :
  Forall healthy (particles sys) ->
  Forall healthy (particles (ExplosionSystem_update math_sqrt sys dt t)).
Proof.
  intros H. unfold ExplosionSystem_update. cbn [particles].
  apply Forall_map. apply Forall_forall. intros p Hp.
  apply filter_In in Hp as [Hp _]. apply healthy_update.
  now apply (proj1 (Forall_forall _ _) H).
Qed.

Lemma create_explosion_healthy (math_cos math_sin : Q -> Q) (math_pi : Q)
    sys pos force count mt g ticks :
  Forall healthy (particles sys) ->
  Forall healthy
    (particles
       (fst (create_explosion math_cos math_sin math_pi sys pos force count
               mt g ticks))).
Proof.
  intros H. unfold create_explosion.
  destruct (spawn_particles_added math_cos math_sin math_pi healthy
              (Z.to_nat count) pos force mt) with (ps := particles sys)
                                                  (g := g)
    as (added & Heq & _ & Hall & _).
  { intros a speed bias off sz g' _ _ _ Hsz. now apply healthy_init. }
  destruct (spawn_particles _ _ _ _ _ _ _ _ _) as [ps g'].
  simpl in Heq. cbn [fst particles]. subst ps.
  apply Forall_app. auto.
Qed.

(** X14: a step of [ExplosionSystem.update] keeps a population of healthy
    particles healthy and leaves every particle it returns inside the
    box. *)
Theorem update_leaves_population_inside_box
    (math_sqrt : Q -> Q) (sys : ExplosionSystem) (dt : Q) (t : Z) :
  Forall healthy (particles sys) ->
  Forall (fun p => healthy p /\ inside_box p)
    (particles (ExplosionSystem_update math_sqrt sys dt t)).
Proof.
  intros H. unfold ExplosionSystem_update. cbn [particles].
  apply Forall_map. apply Forall_forall. intros p Hp.
  apply filter_In in Hp as [Hp _].
  apply (proj1 (Forall_forall _ _) H) in Hp.
  split; [now apply healthy_update|].
  destruct (healthy_size p Hp) as [_ Hhi].
  destruct Hp as (_ & _ & Hinv & Ho & _).
  apply (inside_box_after_boundary_collisions p t Hinv).
  - lra.
  - unfold SCREEN_WIDTH. lra.
Qed.

(** ** The event handler *)

Lemma handle_event_settings (math_cos math_sin : Q -> Q) (math_pi : Q)
    s e g :
  let s' := fst (handle_event math_cos math_sin math_pi s e g) in
  settings_ok s -> (50 | explosion_force s)%Z -> (5 | particle_count s)%Z ->
  settings_ok s' /\ (50 | explosion_force s')%Z /\ (5 | particle_count s')%Z.
Proof.
  intros s' [Hf Hc] Df Dc. subst s'. unfold settings_ok.
  assert (D1000 : (50 | 1000)%Z) by (exists 20%Z; reflexivity).
  assert (D100 : (50 | 100)%Z) by (exists 2%Z; reflexivity).
  assert (D50 : (5 | 50)%Z) by (exists 10%Z; reflexivity).
  assert (D5 : (5 | 5)%Z) by (exists 1%Z; reflexivity).
  assert (Dup : (50 | explosion_force s + 50)%Z)
    by (apply Z.divide_add_r; [exact Df | exists 1%Z; reflexivity]).
  assert (Ddn : (50 | explosion_force s - 50)%Z)
    by (apply Z.divide_sub_r; [exact Df | exists 1%Z; reflexivity]).
  assert (Dri : (5 | particle_count s + 5)%Z)
    by (apply Z.divide_add_r; [exact Dc | exists 1%Z; reflexivity]).
  assert (Dle : (5 | particle_count s - 5)%Z)
    by (apply Z.divide_sub_r; [exact Dc | exists 1%Z; reflexivity]).
  destruct e as [|key|button [mx my] ticks|]; cbn [handle_event].
  - cbn. auto.
  - destruct key; cbn; repeat split; auto; try lia.
    + destruct (Z.min_spec 1000 (explosion_force s + 50)) as [[_ ->]|[_ ->]];
        assumption.
    + destruct (Z.max_spec 100 (explosion_force s - 50)) as [[_ ->]|[_ ->]];
        assumption.
    + destruct (Z.max_spec 5 (particle_count s - 5)) as [[_ ->]|[_ ->]];
        assumption.
    + destruct (Z.min_spec 50 (particle_count s + 5)) as [[_ ->]|[_ ->]];
        assumption.
  - destruct (button =? 1)%Z; [|cbn; auto].
    destruct (create_explosion _ _ _ _ _ _ _ _ _ _) as [sys g']. cbn. auto.
  - cbn. auto.
Qed.

Lemma handle_events_invariant (math_cos math_sin : Q -> Q) (math_pi : Q)
    (I : DebrisSimulation -> Prop) :
  (forall s e g, I s -> I (fst (handle_event math_cos math_sin math_pi s e g)))
  -> forall queue s g,
    I s -> I (fst (handle_events math_cos math_sin math_pi s queue g)).
Proof.
  intros Hstep. induction queue as [|e queue IH]; intros s g Hs; [exact Hs|].
  cbn [handle_events]. specialize (Hstep s e g Hs).
  destruct (handle_event math_cos math_sin math_pi s e g) as [s1 g1].
  now apply IH.
Qed.

Lemma run_invariant (math_sqrt math_cos math_sin : Q -> Q) (math_pi : Q)
    (I : DebrisSimulation -> Prop) :
  (forall s e g, I s -> I (fst (handle_event math_cos math_sin math_pi s e g)))
  -> (forall s dt t,
        I s ->
        I (set_explosion_system s
             (ExplosionSystem_update math_sqrt (explosion_system s) dt t)))
  -> forall inputs s g,
    I s ->
    I (fst (run math_sqrt math_cos math_sin math_pi s inputs g)).
Proof.
  intros Hevent Hupdate.
  induction inputs as [|inp inputs IH]; intros s g Hs; [exact Hs|].
  cbn [run]. destruct (running s); [|exact Hs].
  unfold frame.
  pose proof (handle_events_invariant math_cos math_sin math_pi I Hevent
                (events inp) s g Hs) as H1.
  destruct (handle_events math_cos math_sin math_pi s (events inp) g)
    as [s1 g1]. simpl fst in H1.
  apply IH. destruct (negb (paused s1)); [now apply Hupdate | exact H1].
Qed.

(** X15: whatever the user does, the explosion force stays a multiple of
    50 between 100 and 1000 and the particle count a multiple of 5 between
    5 and 50. *)
Theorem settings_stay_in_range
    (math_sqrt math_cos math_sin : Q -> Q) (math_pi : Q)
    (inputs : list FrameInput) (g : rng) :
  let s :=
    fst (run math_sqrt math_cos math_sin math_pi DebrisSimulation_init
           inputs g) in
  (100 <= explosion_force s <= 1000)%Z
  /\ (50 | explosion_force s)%Z
  /\ (5 <= particle_count s <= 50)%Z
  /\ (5 | particle_count s)%Z.
Proof.
  intros s. subst s.
  pose proof (run_invariant math_sqrt math_cos math_sin math_pi
                (fun s => settings_ok s /\ (50 | explosion_force s)%Z
                          /\ (5 | particle_count s)%Z)) as H.
  destruct (H ltac:(intros s e g0 (A & B & C);
                    now apply handle_event_settings)
              ltac:(intros s dt t A; exact A)
              inputs DebrisSimulation_init g) as ([Hf Hc] & Df & Dc).
  - unfold settings_ok. cbn. repeat split; try lia.
    + exists 6%Z; reflexivity.
    + exists 4%Z; reflexivity.
  - auto.
Qed.

(** X16: in every state the application reaches, every live particle has
    a positive mass, a stress that is not negative, a deformation in
    [[0, 0.3]], a size in [[2, 15]] equal to
    [original_size * (1 - deformation)], and a trail of at most 10
    entries. *)
Theorem application_particles_stay_healthy
    (math_sqrt math_cos math_sin : Q -> Q) (math_pi : Q)
    (inputs : list FrameInput) (g : rng) :
  let s :=
    fst (run math_sqrt math_cos math_sin math_pi DebrisSimulation_init
           inputs g) in
  Forall (fun p =>
            0 < mass p /\ 0 <= stress p
            /\ 0 <= deformation p <= 0.3
            /\ size p == original_size p * (1 - deformation p)
            /\ 2 <= size p <= 15
            /\ (length (trail p) <= 10)%nat)
    (particles (explosion_system s)).
Proof.
  intros s. subst s.
  assert (Hinv : Forall healthy
                   (particles
                      (explosion_system
                         (fst (run math_sqrt math_cos math_sin math_pi
                                 DebrisSimulation_init inputs g))))).
  { apply (run_invariant math_sqrt math_cos math_sin math_pi
             (fun s => Forall healthy (particles (explosion_system s)))).
    - intros s e g0 Hs.
      destruct e as [|key|button [mx my] ticks|]; cbn [handle_event fst].
      + exact Hs.
      + destruct key; cbn; try exact Hs. constructor.
      + destruct (button =? 1)%Z; [|exact Hs].
        pose proof (create_explosion_healthy math_cos math_sin math_pi
                      (explosion_system s) (vec2 (inject_Z mx) (inject_Z my))
                      (inject_Z (explosion_force s)) (particle_count s)
                      (current_material s) g0 ticks Hs) as Hc.
        destruct (create_explosion _ _ _ _ _ _ _ _ _ _) as [sys g'].
        exact Hc.
      + exact Hs.
    - intros s dt t Hs. cbn. now apply ExplosionSystem_update_healthy.
    - constructor. }
  eapply Forall_impl; [|exact Hinv].
  intros p Hp. pose proof (healthy_size p Hp) as Hsz.
  destruct Hp as (Hm & Hs & (He & Hd) & _ & _ & Hl & _). tauto.
Qed.

(** ** Quitting *)

Lemma handle_event_running (math_cos math_sin : Q -> Q) (math_pi : Q)
    s e g :
  running (fst (handle_event math_cos math_sin math_pi s e g))
  = match e with QUIT => false | _ => running s end.
Proof.
  destruct e as [|key|button [mx my] ticks|]; cbn [handle_event].
  - reflexivity.
  - now destruct key.
  - destruct (button =? 1)%Z; [|reflexivity].
    now destruct (create_explosion _ _ _ _ _ _ _ _ _ _).
  - reflexivity.
Qed.

Lemma handle_events_stopped (math_cos math_sin : Q -> Q) (math_pi : Q)
    queue :
  forall s g,
    running s = false ->
    running (fst (handle_events math_cos math_sin math_pi s queue g)) = false.
Proof.
  induction queue as [|e queue IH]; intros s g Hs; [exact Hs|].
  cbn [handle_events].
  pose proof (handle_event_running math_cos math_sin math_pi s e g) as H.
  destruct (handle_event math_cos math_sin math_pi s e g) as [s1 g1].
  simpl fst in H. apply IH. rewrite H, Hs. now destruct e.
Qed.

Lemma handle_events_quit (math_cos math_sin : Q -> Q) (math_pi : Q) queue :
  forall s g,
    In QUIT queue ->
    running (fst (handle_events math_cos math_sin math_pi s queue g)) = false.
Proof.
  induction queue as [|e queue IH]; intros s g Hin; [contradiction|].
  cbn [handle_events].
  pose proof (handle_event_running math_cos math_sin math_pi s e g) as H.
  destruct (handle_event math_cos math_sin math_pi s e g) as [s1 g1].
  simpl fst in H. destruct Hin as [-> | Hin].
  - now apply handle_events_stopped.
  - now apply IH.
Qed.

(** X17: a [QUIT] event anywhere in a frame's queue ends the loop, but
    only after that frame has run to its end: the events queued behind
    it are still served, the frame's update is still made, and the
    frames after it are never run.  No event sets [running] again, and a
    simulation that is not running is returned as it is. *)
Theorem quit_ends_the_loop_after_the_frame
    (math_sqrt math_cos math_sin : Q -> Q) (math_pi : Q)
    (s : DebrisSimulation) (inp : FrameInput) (rest : list FrameInput)
    (g : rng) :
  (running s = true -> In QUIT (events inp) ->
   run math_sqrt math_cos math_sin math_pi s (inp :: rest) g
   = frame math_sqrt math_cos math_sin math_pi s inp g
   /\ running (fst (frame math_sqrt math_cos math_sin math_pi s inp g))
      = false)
  /\ (running s = false ->
      run math_sqrt math_cos math_sin math_pi s (inp :: rest) g = (s, g)
      /\ forall queue,
           running
             (fst (handle_events math_cos math_sin math_pi s queue g))
           = false).
Proof.
  split.
  - intros Hrun Hquit. cbn [run]. rewrite Hrun.
    assert (Hstop : running
                      (fst (frame math_sqrt math_cos math_sin math_pi s inp g))
                    = false).
    { unfold frame.
      pose proof (handle_events_quit math_cos math_sin math_pi (events inp)
                    s g Hquit) as H.
      destruct (handle_events math_cos math_sin math_pi s (events inp) g)
        as [s1 g1]. simpl fst in H.
      destruct (negb (paused s1)); cbn; exact H. }
    split; [|exact Hstop].
    destruct (frame math_sqrt math_cos math_sin math_pi s inp g) as [s2 g2].
    simpl fst in Hstop. destruct rest; cbn [run]; [reflexivity|].
    now rewrite Hstop.
  - intros Hrun. cbn [run]. rewrite Hrun. split; [reflexivity|].
    intros queue. now apply handle_events_stopped.
Qed.

(** ** Pausing *)

Lemma handle_event_alone (math_cos math_sin : Q -> Q) (math_pi : Q) s e g :
  leaves_system_alone e ->
  let r := handle_event math_cos math_sin math_pi s e g in
  explosion_system (fst r) = explosion_system s
  /\ paused (fst r) = paused s /\ snd r = g.
Proof.
  intros He r. subst r.
  destruct e as [|key|button [mx my] ticks|]; cbn [handle_event].
  - cbn. auto.
  - destruct key; cbn in *; auto; contradiction.
  - cbn in He. apply Z.eqb_neq in He. rewrite He. cbn. auto.
  - cbn. auto.
Qed.

Lemma handle_events_alone (math_cos math_sin : Q -> Q) (math_pi : Q) queue :
  forall s g,
    Forall leaves_system_alone queue ->
    let r := handle_events math_cos math_sin math_pi s queue g in
    explosion_system (fst r) = explosion_system s
    /\ paused (fst r) = paused s /\ snd r = g.
Proof.
  induction queue as [|e queue IH]; intros s g Hq; [cbn; auto|].
  cbn [handle_events]. inversion Hq as [|e' q' He Hq']; subst.
  destruct (handle_event_alone math_cos math_sin math_pi s e g He)
    as (H1 & H2 & H3).
  destruct (handle_event math_cos math_sin math_pi s e g) as [s1 g1].
  simpl in H1, H2, H3. subst g1.
  destruct (IH s1 g Hq') as (I1 & I2 & I3).
  cbn zeta. rewrite I1, I2, I3. auto.
Qed.

(** X18: while the simulation is paused, time does not act on it: over
    any number of frames whose events are neither the space key, the [c]
    key nor a left click, the particles and the markers stay exactly as
    they are, however long the frames take, and no random number is
    drawn. *)
Theorem paused_simulation_is_frozen
    (math_sqrt math_cos math_sin : Q -> Q) (math_pi : Q)
    (inputs : list FrameInput) (s : DebrisSimulation) (g : rng) :
  paused s = true ->
  Forall (fun inp => Forall leaves_system_alone (events inp)) inputs ->
  let r := run math_sqrt math_cos math_sin math_pi s inputs g in
  explosion_system (fst r) = explosion_system s
  /\ paused (fst r) = true
  /\ snd r = g.
Proof.
  revert s g. induction inputs as [|inp inputs IH]; intros s g Hp Hin r;
    subst r; [cbn; auto|].
  inversion Hin as [|i l Hq Hrest]; subst.
  cbn [run]. destruct (running s); [|cbn; auto].
  unfold frame.
  destruct (handle_events_alone math_cos math_sin math_pi (events inp) s g Hq)
    as (H1 & H2 & H3).
  destruct (handle_events math_cos math_sin math_pi s (events inp) g)
    as [s1 g1]. simpl in H1, H2, H3. subst g1.
  rewrite H2, Hp. cbn [negb].
  assert (Hp1 : paused s1 = true) by (now rewrite H2).
  destruct (IH s1 g Hp1 Hrest) as (I1 & I2 & I3).
  rewrite I1, I2, I3, H1. auto.
Qed.

(** ** Keys that undo each other *)

Lemma handle_events_two (math_cos math_sin : Q -> Q) (math_pi : Q)
    s k1 k2 g :
  handle_events math_cos math_sin math_pi s [KEYDOWN k1; KEYDOWN k2] g
  = (fst (handle_event math_cos math_sin math_pi
            (fst (handle_event math_cos math_sin math_pi s (KEYDOWN k1) g))
            (KEYDOWN k2) g), g).
Proof. reflexivity. Qed.

(** X19: pressing space twice restores the pause flag; the up and down
    keys undo each other while the force stays within its bounds, as do
    the right and left keys for the particle count; at a bound the key
    that would leave the range changes nothing. *)
Theorem setting_keys_undo_each_other
    (math_cos math_sin : Q -> Q) (math_pi : Q)
    (s : DebrisSimulation) (g : rng) :
  let press k1 k2 :=
    handle_events math_cos math_sin math_pi s [KEYDOWN k1; KEYDOWN k2] g in
  let tap k := handle_event math_cos math_sin math_pi s (KEYDOWN k) g in
  press K_SPACE K_SPACE = (s, g)
  /\ ((100 <= explosion_force s <= 950)%Z -> press K_UP K_DOWN = (s, g))
  /\ ((150 <= explosion_force s <= 1000)%Z -> press K_DOWN K_UP = (s, g))
  /\ ((5 <= particle_count s <= 45)%Z -> press K_RIGHT K_LEFT = (s, g))
  /\ ((10 <= particle_count s <= 50)%Z -> press K_LEFT K_RIGHT = (s, g))
  /\ (explosion_force s = 1000%Z -> tap K_UP = (s, g))
  /\ (explosion_force s = 100%Z -> tap K_DOWN = (s, g))
  /\ (particle_count s = 50%Z -> tap K_RIGHT = (s, g))
  /\ (particle_count s = 5%Z -> tap K_LEFT = (s, g)).
Proof.
  intros press tap. subst press tap. cbv beta.
  rewrite !handle_events_two.
  destruct s as [sys r p m f c].
  unfold handle_event, set_paused, set_explosion_force, set_particle_count.
  cbn [fst explosion_system running paused current_material explosion_force
       particle_count].
  rewrite negb_involutive.
  repeat split; intros; f_equal; f_equal; lia.
Qed.

(** ** Clicking *)

(** X20: a left click creates one explosion at the mouse position with
    the current settings: it appends as many particles as the particle
    count says, between 5 and 50 when the settings are within their
    bounds, all of the current material, and one marker; it changes no
    setting.  A press of any other button changes nothing. *)
Theorem left_click_creates_configured_explosion
    (math_cos math_sin : Q -> Q) (math_pi : Q)
    (s : DebrisSimulation) (button mx my ticks : Z) (g : rng) :
  let r :=
    handle_event math_cos math_sin math_pi s
      (MOUSEBUTTONDOWN button (mx, my) ticks) g in
  (button = 1%Z -> settings_ok s ->
   exists added,
     particles (explosion_system (fst r))
     = particles (explosion_system s) ++ added
     /\ Z.of_nat (length added) = particle_count s
     /\ (5 <= length added <= 50)%nat
     /\ Forall (fun p => material_type p = current_material s) added
     /\ explosions (explosion_system (fst r))
        = explosions (explosion_system s)
          ++ [mkExplosion (vec2 (inject_Z mx) (inject_Z my)) ticks 500]
     /\ set_explosion_system (fst r) (explosion_system s) = s)
  /\ (button <> 1%Z -> r = (s, g)).
Proof.
  intros r. subst r. cbn [handle_event]. split.
  - intros -> [_ Hc]. cbn [Z.eqb Pos.eqb].
    destruct (create_explosion_spec math_cos math_sin math_pi
                (explosion_system s) (vec2 (inject_Z mx) (inject_Z my))
                (inject_Z (explosion_force s)) (particle_count s)
                (current_material s) g ticks)
      as (added & Hp & Hlen & Hall & He).
    cbv zeta in Hp, He.
    destruct (create_explosion _ _ _ _ _ _ _ _ _ _) as [sys g'].
    simpl fst in Hp, He. cbn [fst explosion_system set_explosion_system].
    exists added. repeat split; auto; try lia.
    + eapply Forall_impl; [|exact Hall]. unfold spawned. tauto.
    + now destruct s.
  - intros Hb. apply Z.eqb_neq in Hb. now rewrite Hb.
Qed.

(** ** Rounding towards zero *)

Lemma py_int_nonneg (q : Q) : 0 <= q -> (0 <= py_int q)%Z.
Proof.
  destruct q as [a b]. unfold Qle, py_int; cbn. intros H.
  apply Z.quot_pos; lia.
Qed.

Lemma py_int_nonpos (q : Q) : q <= 0 -> (py_int q <= 0)%Z.
Proof.
  destruct q as [a b]. unfold Qle, py_int; cbn. intros H.
  assert (Ha : (a <= 0)%Z) by lia.
  rewrite <- (Z.opp_involutive a), Z.quot_opp_l by lia.
  assert (0 <= (- a) ÷ Z.pos b)%Z by (apply Z.quot_pos; lia). lia.
Qed.

Lemma py_int_le (q : Q) (n : Z) :
  0 <= q -> q <= inject_Z n -> (py_int q <= n)%Z.
Proof.
  destruct q as [a b]. unfold Qle, py_int, inject_Z; cbn. intros H0 H.
  rewrite Z.quot_div_nonneg by lia.
  apply Z.div_le_upper_bound; lia.
Qed.

Lemma py_int_lt (q : Q) (n : Z) :
  0 <= q -> q < inject_Z n -> (py_int q < n)%Z.
Proof.
  destruct q as [a b]. unfold Qle, Qlt, py_int, inject_Z; cbn. intros H0 H.
  rewrite Z.quot_div_nonneg by lia.
  apply Z.div_lt_upper_bound; lia.
Qed.

Lemma py_int_ge (q : Q) (n : Z) :
  (0 <= n)%Z -> inject_Z n <= q -> (n <= py_int q)%Z.
Proof.
  destruct q as [a b]. unfold Qle, py_int, inject_Z; cbn. intros H0 H.
  rewrite Z.quot_div_nonneg by nia.
  apply Z.div_le_lower_bound; lia.
Qed.

Lemma py_int_below (q : Q) (n : Z) :
  0 <= q -> (n <= py_int q)%Z -> inject_Z n <= q.
Proof.
  destruct q as [a b]. unfold Qle, py_int, inject_Z; cbn. intros H0 H.
  rewrite Z.quot_div_nonneg in H by lia.
  pose proof (Z.mul_div_le a (Z.pos b) ltac:(lia)). nia.
Qed.

Lemma py_int_lt_succ (q : Q) (n : Z) :
  0 <= q -> q < inject_Z (n + 1) -> (py_int q <= n)%Z.
Proof.
  intros H0 H. pose proof (py_int_lt q (n + 1) H0 H). lia.
Qed.

Lemma py_range_spec (start stop step x : Z) :
  (0 < step)%Z ->
  In x (py_range start stop step) ->
  (start <= x < stop)%Z /\ (step | x - start)%Z.
Proof.
  intros Hstep Hin. unfold py_range in Hin.
  apply in_map_iff in Hin as (k & <- & Hk). apply in_seq in Hk.
  set (n := ((stop - start + step - 1) / step)%Z) in *.
  assert (Hn : (Z.of_nat k < n)%Z) by lia.
  assert (Hmul : (step * n <= stop - start + step - 1)%Z)
    by (apply Z.mul_div_le; lia).
  split; [nia|]. exists (Z.of_nat k). lia.
Qed.

Lemma py_range_length (start stop step : Z) :
  length (py_range start stop step)
  = Z.to_nat ((stop - start + step - 1) / step).
Proof. unfold py_range. now rewrite length_map, length_seq. Qed.

(** ** Drawing a particle *)

Lemma material_color_valid (mt : MaterialType) :
  valid_color (color (MATERIALS mt)).
Proof. destruct mt; cbn; lia. Qed.

Lemma segments_length (l : list Vec2) :
  length (segments l) = Nat.pred (length l).
Proof.
  induction l as [|a [|b l] IH]; [reflexivity | reflexivity |].
  change (segments (a :: b :: l)) with ((a, b) :: segments (b :: l)).
  cbn [length Nat.pred] in *. now rewrite IH.
Qed.

Lemma flat_map_at_most_one {A B : Type} (f : A -> list B) (l : list A) :
  (forall a, length (f a) <= 1)%nat ->
  (length (flat_map f l) <= length l)%nat.
Proof.
  intros Hf. induction l as [|a l IH]; [reflexivity|].
  cbn [flat_map]. rewrite length_app. cbn [length].
  specialize (Hf a). lia.
Qed.

Lemma body_color_valid p :
  material p = MATERIALS (material_type p) ->
  0 <= stress p ->
  valid_color (body_color p).
Proof.
  intros Hmat Hs. unfold body_color. rewrite Hmat.
  destruct (material_type p) eqn:Hk; cbn; try lia.
  set (f := py_min (stress p / 300) 1).
  assert (Hf : 0 <= f <= 1).
  { unfold f. split; [apply py_min_ge | apply py_min_le_r]; try lra.
    apply Qle_shift_div_l; lra. }
  assert (Hlo : (200 <= py_int (inject_Z 200 + f * 100))%Z).
  { apply py_int_ge; [lia|]. change (inject_Z 200) with 200. lra. }
  assert (Hhi : (py_int (inject_Z 200 + f * 100) <= 300)%Z).
  { apply py_int_le; change (inject_Z 200) with 200;
      [|change (inject_Z 300) with 300]; lra. }
  lia.
Qed.

Lemma DebrisParticle_draw_colors
    (math_sqrt math_cos math_sin : Q -> Q) (math_pi : Q)
    (p : DebrisParticle) :
  material p = MATERIALS (material_type p) ->
  0 <= stress p ->
  let commands :=
    DebrisParticle_draw math_sqrt math_cos math_sin math_pi p in
  Forall (fun c => valid_color (command_color c)) commands
  /\ ((length (trail p) <= 10)%nat -> (length commands <= 12)%nat).
Proof.
  intros Hmat Hs commands. subst commands. unfold DebrisParticle_draw.
  pose proof (body_color_valid p Hmat Hs) as Hbody.
  split.
  - apply Forall_app. split; [|apply Forall_app; split].
    + unfold draw_trail. apply Forall_flat_map. apply Forall_forall.
      intros seg _. break_if; constructor; [|constructor].
      cbn. rewrite Hmat. apply material_color_valid.
    + unfold draw_body. repeat break_if; repeat constructor;
        try exact Hbody; cbn; lia.
    + unfold draw_velocity. break_if; repeat constructor; cbn; lia.
  - intros Hlen. rewrite !length_app.
    assert (Ht : (length (draw_trail p) <= Nat.pred (length (trail p)))%nat).
    { unfold draw_trail. rewrite <- segments_length.
      apply flat_map_at_most_one. intros seg. break_if; cbn; lia. }
    assert (Hb : (length (draw_body math_cos math_sin math_pi p) <= 2)%nat)
      by (unfold draw_body; repeat break_if; cbn; lia).
    assert (Hv : (length (draw_velocity math_sqrt p) <= 1)%nat)
      by (unfold draw_velocity; break_if; cbn; lia).
    lia.
Qed.

(** X21: for a particle that carries its kind's material and a stress
    that is not negative, every call [DebrisParticle.draw] makes passes a
    colour whose three channels are bytes; with a trail of at most 10
    entries it makes at most 12 calls. *)
Theorem particle_draw_passes_valid_colors
    (math_sqrt math_cos math_sin : Q -> Q) (math_pi : Q)
    (p : DebrisParticle) :
  material p = MATERIALS (material_type p) ->
  0 <= stress p ->
  let commands :=
    DebrisParticle_draw math_sqrt math_cos math_sin math_pi p in
  Forall (fun c => valid_color (command_color c)) commands
  /\ ((length (trail p) <= 10)%nat -> (length commands <= 12)%nat).
Proof.
  apply DebrisParticle_draw_colors.
Qed.

(** X22: a healthy particle is drawn as one polygon of four corners when
    it is Rigid, and otherwise as a filled disc whose radius lies between
    2 and 15, followed by at most one ring; the ring is drawn exactly for
    a SemiRigid particle with a positive deformation and its radius is
    neither smaller than the disc's nor larger than 19. *)
Theorem particle_body_shape
    (math_cos math_sin : Q -> Q) (math_pi : Q) (p : DebrisParticle) :
  healthy p ->
  let body := draw_body math_cos math_sin math_pi p in
  let pos := astype_int (position p) in
  let radius := py_int (size p) in
  (material_type p = RIGID ->
   exists points,
     body = [draw_polygon (body_color p) points] /\ length points = 4%nat)
  /\ (material_type p <> RIGID ->
      (2 <= radius <= 15)%Z
      /\ exists ring,
           body = draw_circle (body_color p) pos radius 0 :: ring
           /\ (length ring <= 1)%nat
           /\ (ring <> [] <->
               material_type p = SEMI_RIGID /\ 0 < deformation p)
           /\ forall c, In c ring ->
                material_type p = SEMI_RIGID /\ 0 < deformation p
                /\ exists r, c = draw_circle (255, 100, 100)%Z pos r 2
                             /\ (radius <= r <= 19)%Z).
Proof.
  intros Hp body pos radius. subst body pos radius.
  pose proof (healthy_size p Hp) as [Hlo Hhi].
  destruct Hp as (_ & _ & (_ & Hd0 & Hd1) & _).
  assert (Hr : (2 <= py_int (size p) <= 15)%Z).
  { split; [apply py_int_ge | apply py_int_le]; try lia;
      try change (inject_Z 2) with 2; try change (inject_Z 15) with 15; lra. }
  unfold draw_body. split.
  - intros ->. cbn [MaterialType_eqb]. eexists. split; [reflexivity|].
    now rewrite length_map, py_range_length.
  - intros Hk. split; [exact Hr|].
    destruct (material_type p) eqn:Hkind; [contradiction| |];
      cbn [MaterialType_eqb andb].
    + unfold Qgtb. case_Qltb 0 (deformation p).
      * eexists. split; [reflexivity|]. split; [cbn; lia|]. split.
        { split; [intros _; split; [reflexivity | exact Hcmp]
                 | intros _; discriminate]. }
        intros c [<- | []].
        split; [reflexivity|]. split; [exact Hcmp|].
        eexists. split; [reflexivity|].
        set (n := py_int (size p)) in *.
        assert (Hn : 2 <= inject_Z n <= 15).
        { split; [change 2 with (inject_Z 2) | change 15 with (inject_Z 15)];
            rewrite <- Zle_Qle; lia. }
        split.
        -- apply py_int_ge; [lia | nra].
        -- apply py_int_lt_succ; [nra|].
           change (inject_Z (19 + 1)) with 20. nra.
      * exists []. split; [reflexivity|]. split; [cbn; lia|]. split.
        { split; [intros H; now contradiction H | intros [_ H]; lra]. }
        intros c [].
    + exists []. split; [reflexivity|]. split; [cbn; lia|]. split.
      { split; [intros H; now contradiction H | intros [H _]; discriminate]. }
      intros c [].
Qed.

(** ** Drawing an explosion *)

Lemma py_range_empty (stop step : Z) :
  (0 < step)%Z -> (stop <= 0)%Z -> py_range 0 stop step = [].
Proof.
  intros Hstep Hstop. unfold py_range.
  assert (H : ((stop - 0 + step - 1) / step <= 0)%Z).
  { assert ((stop - 0 + step - 1) / step < 1)%Z
      by (apply Z.div_lt_upper_bound; lia). lia. }
  now replace (Z.to_nat ((stop - 0 + step - 1) / step)) with 0%nat by lia.
Qed.

Lemma draw_explosion_bounded (t : Z) (e : Explosion) :
  (0 < exp_duration e)%Z ->
  let commands := draw_explosion t e in
  (forall c, In c commands ->
     exists color r,
       c = draw_circle color (astype_int (exp_position e)) r 2
       /\ valid_color color /\ (0 <= r < 50)%Z /\ (5 | r)%Z)
  /\ (length commands <= 10)%nat
  /\ ((exp_duration e <= t - exp_time e)%Z -> commands = [])
  /\ ((t <= exp_time e)%Z -> commands = []).
Proof.
  intros Hdur commands. subst commands. unfold draw_explosion.
  set (progress := inject_Z (t - exp_time e) / inject_Z (exp_duration e)).
  assert (Hd : 0 < inject_Z (exp_duration e))
    by (now rewrite <- (Zlt_Qlt 0)).
  assert (Hradius : progress < 1 -> (py_int (50 * progress) <= 49)%Z).
  { intros Hp. destruct (Qlt_le_dec progress 0) as [Hneg | Hpos].
    - assert (py_int (50 * progress) <= 0)%Z
        by (apply py_int_nonpos; lra). lia.
    - apply py_int_lt_succ; [lra|]. change (inject_Z (49 + 1)) with 50. lra. }
  split; [|split; [|split]].
  - intros c Hc. case_Qltb progress 1; [|destruct Hc].
    apply in_flat_map in Hc as (r & Hr & Hc).
    apply py_range_spec in Hr as [[Hr0 Hr1] Hdiv]; [|lia].
    rewrite Z.sub_0_r in Hdiv.
    apply (proj2 (Z.ltb_lt _ _)) in Hr1 as Hb. rewrite Hb in Hc.
    destruct Hc as [<- | []].
    specialize (Hradius Hcmp).
    set (radius := py_int (50 * progress)) in *.
    assert (Hprog : 0 < progress).
    { destruct (Qlt_le_dec 0 progress) as [H | H]; [exact H|].
      assert (radius <= 0)%Z by (apply py_int_nonpos; lra). lia. }
    assert (Hrad : 0 < inject_Z radius) by (rewrite <- (Zlt_Qlt 0); lia).
    assert (Hfrac : 0 <= inject_Z r / inject_Z radius <= 1).
    { split; [apply Qle_shift_div_l | apply Qle_shift_div_r]; try exact Hrad.
      - rewrite Qmult_0_l, <- (Zle_Qle 0). lia.
      - rewrite Qmult_1_l, <- Zle_Qle. lia. }
    set (x := 255 * (1 - inject_Z r / inject_Z radius) * (1 - progress)).
    assert (Hx : 0 <= x <= 255) by (unfold x; split; nra).
    assert (Hci : (0 <= py_int x <= 255)%Z).
    { split; [now apply py_int_nonneg|].
      apply py_int_le; [|change (inject_Z 255) with 255]; lra. }
    eexists. eexists. split; [reflexivity|].
    split; [cbn; lia|]. split; [lia | exact Hdiv].
  - case_Qltb progress 1; [|cbn; lia].
    specialize (Hradius Hcmp).
    etransitivity;
      [apply flat_map_at_most_one; intros r; break_if; cbn; lia|].
    rewrite py_range_length.
    assert ((py_int (50 * progress) - 0 + 5 - 1) / 5 < 11)%Z
      by (apply Z.div_lt_upper_bound; lia).
    lia.
  - intros Hgone.
    assert (Hp : 1 <= progress).
    { unfold progress. apply Qle_shift_div_l; [exact Hd|].
      rewrite Qmult_1_l, <- Zle_Qle. exact Hgone. }
    apply Qltb_false in Hp. now rewrite Hp.
  - intros Hearly.
    assert (Hp : progress <= 0).
    { unfold progress. apply Qle_shift_div_r; [exact Hd|].
      rewrite Qmult_0_l, <- (Zle_Qle _ 0). lia. }
    break_if; [|reflexivity].
    rewrite py_range_empty; [reflexivity | lia |].
    apply py_int_nonpos. lra.
Qed.

(** X23: for a marker with a positive duration, the explosion effect at
    clock reading [t] consists of at most 10 rings of width 2 around the
    marker's position, each with a radius that is a multiple of 5 below 50
    and a colour whose channels are bytes; nothing is drawn once the
    duration has passed, nor before the marker's own time. *)
Theorem explosion_effect_is_bounded (t : Z) (e : Explosion) :
  (0 < exp_duration e)%Z ->
  let commands := draw_explosion t e in
  (forall c, In c commands ->
     exists color r,
       c = draw_circle color (astype_int (exp_position e)) r 2
       /\ valid_color color /\ (0 <= r < 50)%Z /\ (5 | r)%Z)
  /\ (length commands <= 10)%nat
  /\ ((exp_duration e <= t - exp_time e)%Z -> commands = [])
  /\ ((t <= exp_time e)%Z -> commands = []).
Proof.
  apply draw_explosion_bounded.
Qed.

(** ** Drawing the application *)

Lemma create_explosion_durations (math_cos math_sin : Q -> Q) (math_pi : Q)
    sys pos force count mt g ticks :
  Forall (fun e => exp_duration e = 500%Z) (explosions sys) ->
  Forall (fun e => exp_duration e = 500%Z)
    (explosions
       (fst (create_explosion math_cos math_sin math_pi sys pos force count
               mt g ticks))).
Proof.
  intros H.
  destruct (create_explosion_spec math_cos math_sin math_pi sys pos force
              count mt g ticks) as (added & _ & _ & _ & ->).
  apply Forall_app. split; [exact H|]. now constructor.
Qed.

(** X24: in every state the application reaches, every marker has
    duration 500, so that [ExplosionSystem.draw] never divides by zero,
    and every call it makes, at any clock reading, passes a colour whose
    channels are bytes. *)
Theorem application_draws_valid_colors
    (math_sqrt math_cos math_sin : Q -> Q) (math_pi : Q)
    (inputs : list FrameInput) (g : rng) (t : Z) :
  let s :=
    fst (run math_sqrt math_cos math_sin math_pi DebrisSimulation_init
           inputs g) in
  Forall (fun e => exp_duration e = 500%Z) (explosions (explosion_system s))
  /\ Forall (fun c => valid_color (command_color c))
       (ExplosionSystem_draw math_sqrt math_cos math_sin math_pi
          (explosion_system s) t).
Proof.
  intros s. subst s.
  assert (Hinv :
            (fun s =>
               Forall healthy (particles (explosion_system s))
               /\ Forall (fun e => exp_duration e = 500%Z)
                    (explosions (explosion_system s)))
              (fst (run math_sqrt math_cos math_sin math_pi
                      DebrisSimulation_init inputs g))).
  { apply (run_invariant math_sqrt math_cos math_sin math_pi).
    - intros s e g0 [Hs He].
      destruct e as [|key|button [mx my] ticks|]; cbn [handle_event fst].
      + auto.
      + destruct key; cbn; auto.
      + destruct (button =? 1)%Z; [|auto].
        pose proof (create_explosion_healthy math_cos math_sin math_pi
                      (explosion_system s) (vec2 (inject_Z mx) (inject_Z my))
                      (inject_Z (explosion_force s)) (particle_count s)
                      (current_material s) g0 ticks Hs) as Hc.
        pose proof (create_explosion_durations math_cos math_sin math_pi
                      (explosion_system s) (vec2 (inject_Z mx) (inject_Z my))
                      (inject_Z (explosion_force s)) (particle_count s)
                      (current_material s) g0 ticks He) as Hm.
        destruct (create_explosion _ _ _ _ _ _ _ _ _ _) as [sys g'].
        auto.
      + auto.
    - intros s dt t0 [Hs He]. split.
      + cbn. now apply ExplosionSystem_update_healthy.
      + cbn. apply Forall_forall. intros e Hin.
        apply filter_In in Hin as [Hin _].
        now apply (proj1 (Forall_forall _ _) He).
    - split; constructor. }
  destruct Hinv as [Hs He]. split; [exact He|].
  unfold ExplosionSystem_draw. apply Forall_app. split.
  - apply Forall_flat_map. eapply Forall_impl; [|exact He].
    intros e Hdur. apply Forall_forall. intros c Hc.
    assert (Hpos : (0 < exp_duration e)%Z) by (cbv beta in Hdur; lia).
    destruct (draw_explosion_bounded t e Hpos) as [Hcmd _].
    destruct (Hcmd c Hc) as (col & r & -> & Hv & _). exact Hv.
  - apply Forall_flat_map. eapply Forall_impl; [|exact Hs].
    intros p Hp.
    destruct Hp as (_ & Hst & _ & _ & _ & _ & Hmat).
    now apply DebrisParticle_draw_colors.
Qed.

(** * Concrete runs

    The properties above, applied to particles built by the constructor
    with the rational stand-ins for the [math] functions and the sample
    random source; one frame lasts 16 ms. *)

(** C1 at work: a SemiRigid particle of size 10 hit with force 9000 ends
    with deformation 0.2 and size 8. *)
Lemma semi_rigid_deformation_invariant_witness :
  let p :=
    fst (DebrisParticle_init approx_pi (vec2 600 700) (vec2 0 0) 10
           SEMI_RIGID lcg_rng) in
  let p' := update_deformation p 9000 in
  (size p' == original_size p' * (1 - deformation p')
   /\ deformation p <= deformation p'
   /\ 0 <= deformation p' <= 0.3)
  /\ deformation p' == 0.2 /\ size p' == 8.
Proof.
  intros p p'.
  pose proof (semi_rigid_deformation_invariant approx_pi p
                (reach_init approx_pi _ _ _ _ _) eq_refl) as (_ & H & _).
  split; [exact (H 9000)|]. split; vm_compute; reflexivity.
Defined.

(** C2 at work: a Rigid particle taken through a ground contact. *)
Lemma rigid_soft_update_deformation_noop_witness :
  let p :=
    fst (DebrisParticle_init approx_pi (vec2 600 745) (vec2 100 200) 10
           RIGID lcg_rng) in
  update_deformation p 9000 = p
  /\ deformation (update p 0.016 16) = 0
  /\ stress (update p 0.016 16) = 0
  /\ size (update p 0.016 16) = size p.
Proof.
  intros p.
  pose proof (rigid_soft_update_deformation_noop approx_pi p
                (or_introl eq_refl)) as (Hnoop & Hreach).
  split; [exact (Hnoop 9000)|].
  destruct (Hreach (reach_init approx_pi _ _ _ _ _)) as (_ & _ & _ & Hstep).
  exact (Hstep 0.016 16%Z).
Defined.

(** C3 at work: the Rigid particle of the example, in mid-screen. *)
Lemma ground_contact_response_witness :
  let p :=
    fst (DebrisParticle_init approx_pi (vec2 600 745) (vec2 100 200) 10
           RIGID lcg_rng) in
  let p' := handle_boundary_collisions p 16 in
  Y (position p') = GROUND_Y - 10
  /\ X (velocity p') == 100 * FRICTION /\ Y (velocity p') == -40
  /\ X (velocity p') == 80.
Proof.
  intros p p'.
  assert (Hground : GROUND_Y < Y (position p) + size p) by reflexivity.
  pose proof (ground_contact_response p 16 Hground) as (Hy & _ & Hex).
  assert (Hleft : 0 <= X (position p) - size p) by discriminate.
  assert (Hright : X (position p) + size p <= SCREEN_WIDTH) by discriminate.
  destruct (Hex eq_refl eq_refl eq_refl Hleft Hright) as [Hvx Hvy].
  split; [exact Hy|]. split; [exact Hvx|]. split; [exact Hvy|].
  vm_compute; reflexivity.
Defined.

(** C4 at work: a SemiRigid particle lands in the first frame, which
    charges and relaxes its stress, and flies in the second, which leaves
    the stress alone. *)
Lemma stress_relaxes_on_ground_contact_witness :
  let p0 :=
    fst (DebrisParticle_init approx_pi (vec2 600 745) (vec2 0 300) 10
           SEMI_RIGID lcg_rng) in
  let p1 := update p0 0.016 16 in
  stress p1
  = (stress p0
     + Qabs (Y (velocity (integrate p0 0.016))) * mass p0 / (mass p0 * 100))
    * 0.95
  /\ stress (update p1 0.016 32) = stress p1.
Proof.
  intros p0 p1.
  pose proof (stress_relaxes_on_ground_contact p0 eq_refl) as (_ & _ & Hhit).
  assert (Hm1 : material_type p1 = SEMI_RIGID) by (vm_compute; reflexivity).
  pose proof (stress_relaxes_on_ground_contact p1 Hm1) as (_ & Hmiss & _).
  split.
  - apply Hhit. vm_compute; reflexivity.
  - apply Hmiss. vm_compute; reflexivity.
Defined.

(** C4 as stated fails: the particle above carries positive stress into
    its second frame, and that step neither multiplies the stress by 0.95
    nor lowers it. *)
Lemma stress_does_not_decay_in_flight :
  let p0 :=
    fst (DebrisParticle_init approx_pi (vec2 600 745) (vec2 0 300) 10
           SEMI_RIGID lcg_rng) in
  let p1 := update p0 0.016 16 in
  material_type p1 = SEMI_RIGID
  /\ 0 < stress p1
  /\ stress (update p1 0.016 32) == stress p1
  /\ ~ stress (update p1 0.016 32) == stress p1 * 0.95
  /\ ~ stress (update p1 0.016 32) < stress p1.
Proof.
  vm_compute. repeat split; discriminate.
Qed.

(** C5 at work: a Rigid particle of size 10 has mass 0.25. *)
Lemma constructed_mass_positive_for_spawn_sizes_witness :
  let p :=
    fst (DebrisParticle_init approx_pi (vec2 600 700) (vec2 0 0) 10
           RIGID lcg_rng) in
  size p = 10 /\ 0 < mass p /\ mass p == 0.25.
Proof.
  intros p.
  assert (Hsz : 3 <= 10 <= 15) by (split; discriminate).
  destruct (constructed_mass_positive_for_spawn_sizes approx_cos approx_sin
              approx_pi (vec2 600 700) (vec2 0 0) 10 RIGID lcg_rng)
    as (Hin & _).
  destruct (Hin Hsz) as (Hsize & _ & Hpos).
  split; [exact Hsize|]. split; [exact Hpos | vm_compute; reflexivity].
Defined.

(** C5 as stated fails: the constructor accepts size 0 and the particle
    it builds has mass 0; it accepts a negative size as well. *)
Lemma construction_accepts_size_zero :
  let p :=
    fst (DebrisParticle_init approx_pi (vec2 600 700) (vec2 0 0) 0
           RIGID lcg_rng) in
  let q :=
    fst (DebrisParticle_init approx_pi (vec2 600 700) (vec2 0 0) (-3)
           RIGID lcg_rng) in
  size p = 0 /\ mass p == 0 /\ ~ 0 < mass p /\ size q = -3.
Proof.
  vm_compute. repeat split; discriminate.
Qed.

(** C6 at work: a particle resting in the bottom-left corner fails the
    ground test and the left-wall test in one frame and is counted once;
    a particle in mid-air is not counted. *)
Lemma collision_count_increments_once_witness :
  let corner :=
    fst (DebrisParticle_init approx_pi (vec2 5 745) (vec2 0 0) 10
           SOFT lcg_rng) in
  let flying :=
    fst (DebrisParticle_init approx_pi (vec2 600 300) (vec2 0 0) 10
           SOFT lcg_rng) in
  collision_count (update corner 0.016 16) = 1%Z
  /\ collision_count (update flying 0.016 16) = 0%Z.
Proof.
  intros corner flying.
  pose proof (collision_count_increments_once approx_sqrt corner 0.016 16)
    as (_ & Hboth & _).
  pose proof (collision_count_increments_once approx_sqrt flying 0.016 16)
    as (_ & _ & Hnone & _).
  split.
  - apply Hboth; vm_compute; reflexivity.
  - apply Hnone; vm_compute; reflexivity.
Defined.

(** C7 at work: at [x = -150], velocity (12, 16) has speed 20 and
    velocity (36, 48) has speed 60. *)
Lemma is_particle_active_beyond_left_margin_witness :
  let slow :=
    fst (DebrisParticle_init approx_pi (vec2 (-150) 300) (vec2 12 16) 10
           SEMI_RIGID lcg_rng) in
  let fast :=
    fst (DebrisParticle_init approx_pi (vec2 (-150) 300) (vec2 36 48) 10
           SEMI_RIGID lcg_rng) in
  is_particle_active approx_sqrt slow = false
  /\ is_particle_active approx_sqrt fast = true.
Proof.
  intros slow fast.
  assert (Hx : X (position slow) == -150) by reflexivity.
  assert (Hx' : X (position fast) == -150) by reflexivity.
  pose proof (is_particle_active_beyond_left_margin approx_sqrt slow Hx)
    as [H20 _].
  pose proof (is_particle_active_beyond_left_margin approx_sqrt fast Hx')
    as [_ H60].
  split.
  - apply H20. vm_compute; reflexivity.
  - apply H60. vm_compute; reflexivity.
Defined.

(** C10 at work: a Soft particle driven into the bottom-right corner. *)
Lemma boundary_collisions_never_speed_up_witness :
  let p :=
    fst (DebrisParticle_init approx_pi (vec2 1195 745) (vec2 100 200) 10
           SOFT lcg_rng) in
  Qabs (X (velocity (handle_boundary_collisions p 16))) <= Qabs (X (velocity p))
  /\ Qabs (Y (velocity (handle_boundary_collisions p 16)))
     <= Qabs (Y (velocity p)).
Proof.
  intros p.
  pose proof (boundary_collisions_never_speed_up p 16 eq_refl) as [H _].
  exact H.
Defined.

(** * Concrete runs of the further properties *)

Ltac decide_Q :=
  vm_compute; first [reflexivity | discriminate | (intro; discriminate)].

(** X1 at work: a Soft particle driven past the bottom-right corner. *)
Lemma boundary_collisions_leave_particle_inside_box_witness :
  let p :=
    fst (DebrisParticle_init approx_pi (vec2 1195 745) (vec2 100 200) 10
           SOFT lcg_rng) in
  inside_box (handle_boundary_collisions p 16)
  /\ inside_box (update p 0.016 16).
Proof.
  intros p.
  assert (Hinv : deformation_inv p) by (repeat split; decide_Q).
  assert (Ho : 0 <= original_size p) by decide_Q.
  assert (Hfit : 2 * size p <= SCREEN_WIDTH) by decide_Q.
  destruct (boundary_collisions_leave_particle_inside_box p 16 Hinv Ho Hfit)
    as [Hnow Hstep].
  split; [exact Hnow | exact (Hstep 0.016)].
Defined.

(** X2 at work: a Soft particle past the left wall, in mid-air, comes back
    at [x = 10] with [velocity.x = 50 * 0.9]. *)
Lemma wall_contact_response_witness :
  let p :=
    fst (DebrisParticle_init approx_pi (vec2 5 300) (vec2 (-50) 0) 10
           SOFT lcg_rng) in
  let p' := handle_boundary_collisions p 16 in
  X (position p') = 10 /\ X (velocity p') == 45
  /\ collision_count p' = 1%Z /\ last_collision_time p' = 16%Z.
Proof.
  intros p p'.
  assert (Hair : touches_ground p = false) by reflexivity.
  assert (Hwall : X (position p) - size p < 0
                  \/ (0 <= X (position p) - size p
                      /\ SCREEN_WIDTH < X (position p) + size p))
    by (left; reflexivity).
  destruct (wall_contact_response p 16 Hair Hwall)
    as (Hx & Hv & _ & _ & Hc & Ht).
  split; [exact Hx|]. split; [|split; [exact Hc | exact Ht]].
  subst p'. rewrite Hv. decide_Q.
Defined.

(** X3 at work: the first step of a new particle starts its trail. *)
Lemma trail_is_bounded_queue_witness :
  let p :=
    fst (DebrisParticle_init approx_pi (vec2 600 300) (vec2 100 0) 10
           RIGID lcg_rng) in
  (length (trail p) <= 10)%nat
  /\ trail (update p 0.016 16) = [] ++ [position (integrate p 0.016)].
Proof.
  intros p.
  destruct (trail_is_bounded_queue approx_pi p
              (reach_init approx_pi _ _ _ _ _)) as [Hlen Hpush].
  split; [exact Hlen | exact (Hpush 0.016 16%Z)].
Defined.


(** X5 at work: after a landing the mass of a size-10 SemiRigid particle
    is still [10^2 * 1.8 / 1000]. *)
Lemma mass_follows_original_size_witness :
  let p :=
    update
      (fst (DebrisParticle_init approx_pi (vec2 600 745) (vec2 0 300) 10
              SEMI_RIGID lcg_rng)) 0.016 16 in
  mass p = original_size p ^ 2 * density (MATERIALS (material_type p)) / 1000
  /\ mass p == 0.18.
Proof.
  intros p.
  destruct (mass_follows_original_size approx_pi p
              (reach_update approx_pi _ 0.016 16
                 (reach_init approx_pi _ _ _ _ _))) as (Hm & _).
  split; [exact Hm | decide_Q].
Defined.

(** X6 at work: the same particle after its landing. *)
Lemma simulated_stress_nonnegative_witness :
  let p :=
    update
      (fst (DebrisParticle_init approx_pi (vec2 600 745) (vec2 0 300) 10
              SEMI_RIGID lcg_rng)) 0.016 16 in
  0 < mass p /\ 0 <= stress p.
Proof.
  intros p.
  assert (Hsz : 3 <= 10 <= 15) by (split; discriminate).
  exact (simulated_stress_nonnegative approx_pi p
           (simulated_update approx_pi _ 0.016 16
              (simulated_init approx_pi _ _ 10 _ _ Hsz))).
Defined.


(** X8 at work: a particle at rest on the screen, and a fast one beyond
    the left margin. *)
Lemma culling_spares_visible_and_fast_particles_witness :
  let resting :=
    fst (DebrisParticle_init approx_pi (vec2 600 740) (vec2 0 0) 10
           RIGID lcg_rng) in
  let fast :=
    fst (DebrisParticle_init approx_pi (vec2 (-150) 300) (vec2 36 48) 10
           RIGID lcg_rng) in
  is_particle_active approx_sqrt resting = true
  /\ is_particle_active approx_sqrt fast = true.
Proof.
  intros resting fast. split.
  - apply (proj1 (culling_spares_visible_and_fast_particles approx_sqrt
                    resting)).
    + split; decide_Q.
    + decide_Q.
    + vm_compute. discriminate.
  - apply (proj2 (culling_spares_visible_and_fast_particles approx_sqrt
                    fast)).
    decide_Q.
Defined.

(** X9 at work: of two particles, the slow one beyond the left margin is
    dropped. *)
Lemma update_never_adds_particles_witness :
  let kept :=
    fst (DebrisParticle_init approx_pi (vec2 600 300) (vec2 0 0) 10
           SOFT lcg_rng) in
  let lost :=
    fst (DebrisParticle_init approx_pi (vec2 (-150) 300) (vec2 12 16) 10
           SOFT lcg_rng) in
  let sys := mkSystem [kept; lost] [] in
  let sys' := ExplosionSystem_update approx_sqrt sys 0.016 16 in
  (get_particle_count sys' <= get_particle_count sys)%Z
  /\ get_particle_count sys' <> get_particle_count sys
  /\ particles sys' = [update kept 0.016 16].
Proof.
  intros kept lost sys sys'.
  destruct (update_never_adds_particles approx_sqrt sys 0.016 16)
    as (Hle & Hsame & _).
  split; [exact Hle|]. split.
  - intros Heq. apply Hsame in Heq. vm_compute in Heq. discriminate.
  - reflexivity.
Defined.

(** X10 at work: a marker set at 1000 ms is listed at 1499 ms and gone at
    1500 ms. *)
Lemma explosion_marker_lasts_500_ms_witness :
  let sys1 :=
    fst (create_explosion approx_cos approx_sin approx_pi
           ExplosionSystem_init (vec2 600 400) 300 5 SOFT lcg_rng 1000) in
  let marker := mkExplosion (vec2 600 400) 1000 500 in
  In marker
    (explosions (ExplosionSystem_update approx_sqrt sys1 0.016 1499))
  /\ ~ In marker
         (explosions (ExplosionSystem_update approx_sqrt sys1 0.016 1500)).
Proof.
  intros sys1 marker. subst sys1 marker.
  pose proof (explosion_marker_lasts_500_ms approx_sqrt approx_cos approx_sin
                approx_pi ExplosionSystem_init (vec2 600 400) 300 5 SOFT
                lcg_rng 1000 0.016 1499) as Hlisted.
  pose proof (explosion_marker_lasts_500_ms approx_sqrt approx_cos approx_sin
                approx_pi ExplosionSystem_init (vec2 600 400) 300 5 SOFT
                lcg_rng 1000 0.016 1500) as Hgone.
  cbv zeta in Hlisted, Hgone.
  destruct Hlisted as [[_ Hlisted] _]. destruct Hgone as [[Hgone _] _].
  split.
  - apply Hlisted. reflexivity.
  - intros Hin. apply Hgone in Hin. discriminate.
Defined.

(** X13 at work: the zero vector and the vector (3, 4). *)
Lemma normalize_gives_unit_vector_witness :
  normalize approx_sqrt (vec2 0 0) = vec2 0 0
  /\ X (normalize approx_sqrt (vec2 3 4)) ^ 2
     + Y (normalize approx_sqrt (vec2 3 4)) ^ 2 == 1.
Proof.
  split.
  - apply (proj1 (normalize_gives_unit_vector approx_sqrt (vec2 0 0))).
    decide_Q.
  - apply (proj2 (normalize_gives_unit_vector approx_sqrt (vec2 3 4)));
      decide_Q.
Defined.

(** X14 at work: a fresh burst of three particles, stepped once. *)
Lemma update_leaves_population_inside_box_witness :
  let sys :=
    fst (create_explosion approx_cos approx_sin approx_pi
           ExplosionSystem_init (vec2 600 400) 300 3 SOFT lcg_rng 1000) in
  Forall (fun p => healthy p /\ inside_box p)
    (particles (ExplosionSystem_update approx_sqrt sys 0.016 1016)).
Proof.
  intros sys.
  apply (update_leaves_population_inside_box approx_sqrt sys 0.016 1016).
  apply create_explosion_healthy. constructor.
Defined.

(** X17 at work: the queue [QUIT, UP] is served to its end, so the force
    becomes 350; the next frame's [UP] is never served. *)
Lemma quit_ends_the_loop_after_the_frame_witness :
  let r :=
    run approx_sqrt approx_cos approx_sin approx_pi DebrisSimulation_init
      [mkFrameInput 16 [QUIT; KEYDOWN K_UP] 16;
       mkFrameInput 16 [KEYDOWN K_UP] 32] lcg_rng in
  r = frame approx_sqrt approx_cos approx_sin approx_pi DebrisSimulation_init
        (mkFrameInput 16 [QUIT; KEYDOWN K_UP] 16) lcg_rng
  /\ running (fst r) = false
  /\ explosion_force (fst r) = 350%Z.
Proof.
  intros r.
  assert (Hquit : In QUIT (events (mkFrameInput 16 [QUIT; KEYDOWN K_UP] 16)))
    by (left; reflexivity).
  destruct (proj1 (quit_ends_the_loop_after_the_frame approx_sqrt approx_cos
                     approx_sin approx_pi DebrisSimulation_init
                     (mkFrameInput 16 [QUIT; KEYDOWN K_UP] 16)
                     [mkFrameInput 16 [KEYDOWN K_UP] 32] lcg_rng)
              eq_refl Hquit) as [Hrun Hstop].
  split; [exact Hrun|]. split; [|reflexivity].
  subst r. rewrite Hrun. exact Hstop.
Defined.

(** X18 at work: a paused simulation holding three particles, over two
    frames of half a second each in which the user presses the up key and
    the right mouse button. *)
Lemma paused_simulation_is_frozen_witness :
  let sys :=
    fst (create_explosion approx_cos approx_sin approx_pi
           ExplosionSystem_init (vec2 600 400) 300 3 SOFT lcg_rng 1000) in
  let s := mkSimulation sys true true SOFT 300 20 in
  let busy :=
    mkFrameInput 500 [KEYDOWN K_UP; MOUSEBUTTONDOWN 3 (10, 10)%Z 1100] 1500 in
  let r :=
    run approx_sqrt approx_cos approx_sin approx_pi s [busy; busy] lcg_rng in
  explosion_system (fst r) = sys /\ paused (fst r) = true
  /\ snd r = lcg_rng.
Proof.
  intros sys s busy r.
  assert (Hidle : Forall (fun inp => Forall leaves_system_alone (events inp))
                    [busy; busy]).
  { assert (Hb : Forall leaves_system_alone (events busy)).
    { repeat constructor. cbn. discriminate. }
    constructor; [exact Hb|]. constructor; [exact Hb|]. constructor. }
  exact (paused_simulation_is_frozen approx_sqrt approx_cos approx_sin
           approx_pi [busy; busy] s lcg_rng eq_refl Hidle).
Defined.

(** X19 at work: from the initial settings, and at the upper bound of the
    force. *)
Lemma setting_keys_undo_each_other_witness :
  handle_events approx_cos approx_sin approx_pi DebrisSimulation_init
    [KEYDOWN K_UP; KEYDOWN K_DOWN] lcg_rng
  = (DebrisSimulation_init, lcg_rng)
  /\ handle_events approx_cos approx_sin approx_pi DebrisSimulation_init
       [KEYDOWN K_RIGHT; KEYDOWN K_LEFT] lcg_rng
     = (DebrisSimulation_init, lcg_rng)
  /\ handle_event approx_cos approx_sin approx_pi
       (set_explosion_force DebrisSimulation_init 1000) (KEYDOWN K_UP)
       lcg_rng
     = (set_explosion_force DebrisSimulation_init 1000, lcg_rng).
Proof.
  destruct (setting_keys_undo_each_other approx_cos approx_sin approx_pi
              DebrisSimulation_init lcg_rng)
    as (_ & Hup & _ & Hright & _).
  destruct (setting_keys_undo_each_other approx_cos approx_sin approx_pi
              (set_explosion_force DebrisSimulation_init 1000) lcg_rng)
    as (_ & _ & _ & _ & _ & Htop & _).
  split; [apply Hup; cbn; lia|].
  split; [apply Hright; cbn; lia | apply Htop; reflexivity].
Defined.

(** X20 at work: the first left click of a session. *)
Lemma left_click_creates_configured_explosion_witness :
  let r :=
    handle_event approx_cos approx_sin approx_pi DebrisSimulation_init
      (MOUSEBUTTONDOWN 1 (600, 400)%Z 1000) lcg_rng in
  (exists added,
     particles (explosion_system (fst r)) = [] ++ added
     /\ Z.of_nat (length added) = 20%Z
     /\ (5 <= length added <= 50)%nat
     /\ Forall (fun p => material_type p = SEMI_RIGID) added
     /\ explosions (explosion_system (fst r))
        = [] ++ [mkExplosion (vec2 (inject_Z 600) (inject_Z 400)) 1000 500]
     /\ set_explosion_system (fst r) ExplosionSystem_init
        = DebrisSimulation_init)
  /\ handle_event approx_cos approx_sin approx_pi DebrisSimulation_init
       (MOUSEBUTTONDOWN 3 (600, 400)%Z 1000) lcg_rng
     = (DebrisSimulation_init, lcg_rng).
Proof.
  intros r.
  assert (Hok : settings_ok DebrisSimulation_init)
    by (unfold settings_ok; cbn; lia).
  split.
  - exact (proj1 (left_click_creates_configured_explosion approx_cos
                    approx_sin approx_pi DebrisSimulation_init 1 600 400 1000
                    lcg_rng) eq_refl Hok).
  - apply (proj2 (left_click_creates_configured_explosion approx_cos
                    approx_sin approx_pi DebrisSimulation_init 3 600 400 1000
                    lcg_rng)).
    discriminate.
Defined.

(** X21 at work: a new SemiRigid particle. *)
Lemma particle_draw_passes_valid_colors_witness :
  let p :=
    fst (DebrisParticle_init approx_pi (vec2 600 300) (vec2 30 40) 10
           SEMI_RIGID lcg_rng) in
  let commands := DebrisParticle_draw approx_sqrt approx_cos approx_sin
                    approx_pi p in
  Forall (fun c => valid_color (command_color c)) commands
  /\ (length commands <= 12)%nat.
Proof.
  intros p commands.
  assert (Hs : 0 <= stress p) by decide_Q.
  destruct (particle_draw_passes_valid_colors approx_sqrt approx_cos
              approx_sin approx_pi p eq_refl Hs) as [Hcol Hlen].
  split; [exact Hcol|]. apply Hlen. cbn. lia.
Defined.

(** X22 at work: a SemiRigid particle of size 10 deformed by 0.2 is a
    disc of radius 8 inside a ring of radius 9. *)
Lemma particle_body_shape_witness :
  let p :=
    update_deformation
      (fst (DebrisParticle_init approx_pi (vec2 600 300) (vec2 30 40) 10
              SEMI_RIGID lcg_rng)) 9000 in
  let body := draw_body approx_cos approx_sin approx_pi p in
  (exists ring,
     body = draw_circle (body_color p) (astype_int (position p))
              (py_int (size p)) 0 :: ring
     /\ (length ring <= 1)%nat /\ ring <> [])
  /\ body = [draw_circle (255, 150, 100)%Z (600, 300)%Z 8 0;
             draw_circle (255, 100, 100)%Z (600, 300)%Z 9 2].
Proof.
  intros p body.
  assert (Hp : healthy p).
  { unfold healthy, deformation_inv.
    repeat split; first [decide_Q | cbn; lia]. }
  assert (Hk : material_type p <> RIGID) by discriminate.
  destruct (proj2 (particle_body_shape approx_cos approx_sin approx_pi p Hp)
              Hk) as (_ & ring & Hbody & Hlen & Hring & _).
  split.
  - exists ring. split; [exact Hbody|]. split; [exact Hlen|].
    apply Hring. split; [reflexivity | decide_Q].
  - vm_compute. reflexivity.
Defined.

(** X23 at work: half-way through its time a marker shows five rings;
    at its end it shows none. *)
Lemma explosion_effect_is_bounded_witness :
  let e := mkExplosion (vec2 600 400) 1000 500 in
  (length (draw_explosion 1250 e) <= 10)%nat
  /\ length (draw_explosion 1250 e) = 5%nat
  /\ draw_explosion 1500 e = [].
Proof.
  intros e.
  assert (Hdur : (0 < exp_duration e)%Z) by reflexivity.
  destruct (explosion_effect_is_bounded 1250 e Hdur) as (_ & Hlen & _).
  destruct (explosion_effect_is_bounded 1500 e Hdur) as (_ & _ & Hgone & _).
  split; [exact Hlen|]. split; [reflexivity|]. apply Hgone. discriminate.
Defined.
